(** * Parameter-conditioned sequence generator (blocks/groundhog/examples/sine.py)

    A shallow embedding of [AddParameters], [SeriesIterator], the [Emitter]
    cost and the training-cost wiring of [main], together with the
    properties of the specification that concern them.

    Numbers.  The program computes in [floatX].  The embedding is generic in
    the scalar type: a type [R] with the operations the program uses.  No
    algebraic law is assumed unless a statement lists it, so every statement
    without such a hypothesis also holds for machine floats. *)

From stdpp Require Import base strings gmap list.
From Stdlib Require Import ZArith Lia.
From Stdlib Require Import PrimFloat.

Local Set Warnings "-register-all,-clear-no-such-hyp".

(** ** Scalars *)

Class Scalar (R : Type) := {
  rzero : R;
  rone : R;
  radd : R → R → R;
  rsub : R → R → R;
  rmul : R → R → R
}.

#[export] Instance Z_scalar : Scalar Z := {|
  rzero := 0%Z; rone := 1%Z; radd := Z.add; rsub := Z.sub; rmul := Z.mul
|}.

(** ** Python exceptions and fallible computations *)

Inductive py_error :=
  | IndexError
  | AssertionError
  | KeyError (key : string)
  | TypeError
  | ValueError.

Inductive result (A : Type) :=
  | Ok (a : A)
  | Raise (e : py_error).
Arguments Ok {A} a.
Arguments Raise {A} e.

#[export] Instance result_ret : MRet result := λ A a, Ok a.
#[export] Instance result_bind : MBind result := λ A B f m,
  match m with Ok a => f a | Raise e => Raise e end.
#[export] Instance result_fmap : FMap result := λ A B f m,
  match m with Ok a => Ok (f a) | Raise e => Raise e end.

(** ** Tensors of any rank *)

Inductive tensor (R : Type) :=
  | Sc (r : R)
  | Arr (l : list (tensor R)).
Arguments Sc {R} r.
Arguments Arr {R} l.

Section tensors.
Context {R : Type} `{Scalar R}.

(** [t.ndim] *)
Fixpoint ndim (t : tensor R) : nat :=
  match t with
  | Sc _ => 0
  | Arr [] => 1
  | Arr (x :: _) => S (ndim x)
  end.

(** [t] has shape [ds] (an empty axis says nothing about the axes below). *)
Fixpoint has_shape (ds : list nat) (t : tensor R) : Prop :=
  match ds, t with
  | [], Sc _ => True
  | d :: ds', Arr l => length l = d ∧ Forall (has_shape ds') l
  | _, _ => False
  end.

Fixpoint tmap (f : R → R) (t : tensor R) : tensor R :=
  match t with
  | Sc r => Sc (f r)
  | Arr l => Arr (map (tmap f) l)
  end.

(** Elementwise binary operation on operands of equal rank; a scalar
    operand is broadcast. *)
Fixpoint tzip (f : R → R → R) (a b : tensor R) {struct a} : tensor R :=
  match a, b with
  | Sc x, Sc y => Sc (f x y)
  | Sc x, Arr lb => tmap (f x) (Arr lb)
  | Arr la, Sc y => Arr (map (λ x, tzip f x (Sc y)) la)
  | Arr la, Arr lb =>
      Arr ((fix go (la lb : list (tensor R)) : list (tensor R) :=
              match la, lb with
              | x :: xs, y :: ys => tzip f x y :: go xs ys
              | _, _ => []
              end) la lb)
  end.

Fixpoint over_leading (n : nat) (g : tensor R → tensor R) (t : tensor R)
    : tensor R :=
  match n, t with
  | S n', Arr l => Arr (map (over_leading n' g) l)
  | _, _ => g t
  end.

(** Theano's elementwise binary operators: the operand of lower rank is
    broadcast along the leading axes of the other one.  (Broadcasting of
    axes of size one and shape errors are not represented: operands of a
    mismatching shape are truncated to the common part.) *)
Definition tbroadcast (f : R → R → R) (a b : tensor R) : tensor R :=
  let da := ndim a in
  let db := ndim b in
  if decide (db < da) then over_leading (da - db) (λ x, tzip f x b) a
  else if decide (da < db) then over_leading (db - da) (λ y, tzip f a y) b
  else tzip f a b.

Definition tadd : tensor R → tensor R → tensor R := tbroadcast radd.
Definition tsub : tensor R → tensor R → tensor R := tbroadcast rsub.

(** [t ** 2] *)
Definition tsqr : tensor R → tensor R := tmap (λ x, rmul x x).

(** Sum of a list of scalars, left to right. *)
Definition rsum (l : list R) : R :=
  match l with
  | [] => rzero
  | x :: xs => foldl radd x xs
  end.

Definition tsum_list (l : list (tensor R)) : tensor R :=
  match l with
  | [] => Sc rzero
  | x :: xs => foldl (tzip radd) x xs
  end.

(** [t.sum(axis=k)] *)
Fixpoint sum_axis (k : nat) (t : tensor R) : tensor R :=
  match k, t with
  | _, Sc r => Sc r
  | 0, Arr l => tsum_list l
  | S k', Arr l => Arr (map (sum_axis k') l)
  end.

(** The scalars of a tensor, in row-major order. *)
Fixpoint elements (t : tensor R) : list R :=
  match t with
  | Sc r => [r]
  | Arr l => concat (map elements l)
  end.

(** [t.sum()] *)
Definition tsum (t : tensor R) : R := rsum (elements t).

Definition of_vec (v : list R) : tensor R := Arr (Sc <$> v).
Definition of_mat (m : list (list R)) : tensor R := Arr (of_vec <$> m).
Definition of_tensor3 (x : list (list (list R))) : tensor R :=
  Arr (of_mat <$> x).

(** *** The emitter of [main]

    [[
    class Emitter(TrivialEmitter):
        def cost(self, readouts, outputs):
            return ((readouts - outputs) ** 2).sum(axis=readouts.ndim - 1)
    ]] *)
Definition Emitter_cost (readouts outputs : tensor R) : tensor R :=
  sum_axis (ndim readouts - 1) (tsqr (tsub readouts outputs)).

(** The squared difference of two scalars. *)
Definition sqdiff (a b : R) : R := rmul (rsub a b) (rsub a b).

(** The cost of a readout row against a target row. *)
Definition row_cost (rv ov : list R) : R := rsum (zip_with sqdiff rv ov).

(** The squared error of every element, with nothing summed. *)
Definition squared_error (readouts outputs : tensor R) : tensor R :=
  tsqr (tsub readouts outputs).

(** [generator.cost(...).sum()] in [main]: the remaining axes are summed. *)
Definition total_cost (costs : tensor R) : R := tsum costs.

End tensors.

(** ** Python containers *)

Section containers.
Context {V : Type}.

(** [d.pop(k)] *)
Definition dict_pop (d : gmap string V) (k : string)
    : result (V * gmap string V) :=
  match d !! k with
  | Some v => Ok (v, delete k d)
  | None => Raise (KeyError k)
  end.

(** [d[k]] *)
Definition dict_getitem (d : gmap string V) (k : string) : result V :=
  match d !! k with
  | Some v => Ok v
  | None => Raise (KeyError k)
  end.

(** [{name: d.pop(name) for name in names}], returning the comprehension
    and what is left of [d]. *)
Fixpoint pop_each (names : list string) (acc d : gmap string V)
    : result (gmap string V * gmap string V) :=
  match names with
  | [] => Ok (acc, d)
  | name :: rest =>
      '(v, d') ← dict_pop d name;
      pop_each rest (<[name := v]> acc) d'
  end.

(** [l[i]], with Python's negative indices. *)
Definition list_index (i : Z) (n : nat) : result nat :=
  let j := if decide (i < 0)%Z then (i + Z.of_nat n)%Z else i in
  if decide (0 ≤ j < Z.of_nat n)%Z then Ok (Z.to_nat j) else Raise IndexError.

Definition list_getitem {A} (l : list A) (i : Z) : result A :=
  j ← list_index i (length l);
  match l !! j with Some x => Ok x | None => Raise IndexError end.

(** [l[i] = x] *)
Definition list_setitem {A} (l : list A) (i : Z) (x : A) : result (list A) :=
  j ← list_index i (length l);
  Ok (<[j := x]> l).

(** [assert c] *)
Definition py_assert (c : bool) : result unit :=
  if c then Ok () else Raise AssertionError.
End containers.

(** ** Bricks of the library used by the example *)

Section bricks.
Context {R : Type} `{Scalar R}.

(** Learned parameters of one affine layer: a weight matrix with one row
    per input component, and a bias. *)
Record linear := Linear { weights : list (list R); biases : list R }.

(** [x · W + b] for one input vector [x]. *)
Definition affine (lin : linear) (x : list R) : list R :=
  imap (λ j bj,
          radd (rsum (zip_with (λ xi row, rmul xi (nth j row rzero))
                               x (weights lin)))
               bj)
       (biases lin).

Definition as_scalar (t : tensor R) : option R :=
  match t with Sc r => Some r | Arr _ => None end.

Fixpoint as_vec (l : list (tensor R)) : option (list R) :=
  match l with
  | [] => Some []
  | t :: ts =>
      match as_scalar t, as_vec ts with
      | Some r, Some rs => Some (r :: rs)
      | _, _ => None
      end
  end.

(** A function of vectors applied along the last axis of a tensor. *)
Fixpoint along_last (g : list R → list R) (t : tensor R) : tensor R :=
  match t with
  | Sc r => Sc r
  | Arr l =>
      match as_vec l with
      | Some x => of_vec (g x)
      | None => Arr (map (along_last g) l)
      end
  end.

(** Modelled from the spec: the [Linear] brick is not under src; it is the
    learned affine projection of the specification, applied to every row
    of its input. *)
Definition Linear_apply (lin : linear) (t : tensor R) : tensor R :=
  along_last (affine lin) t.

(** Modelled from the spec: the activation bricks are not under src;
    [Identity] applies no nonlinearity, any other activation (such as
    [Tanh]) applies a function to every element. *)
Inductive activation :=
  | Identity
  | Elementwise (f : R → R).

Definition activation_apply (a : activation) (t : tensor R) : tensor R :=
  match a with
  | Identity => t
  | Elementwise f => tmap f t
  end.

(** Modelled from the spec: the [MLP] brick is not under src; it is a
    stack of affine layers, each followed by its activation, and [dims]
    lists the dimensions between the layers (one more than there are
    activations), unset until the allocation configuration is pushed. *)
Record MLP := { activations : list activation; dims : list (option Z) }.

Definition MLP_init (acts : list activation) : MLP :=
  {| activations := acts; dims := replicate (S (length acts)) None |}.

Definition MLP_apply (mlp : MLP) (layers : list linear) (t : tensor R)
    : tensor R :=
  foldl (λ out al, activation_apply al.1 (Linear_apply al.2 out))
        t (zip (activations mlp) layers).

(** Dimensions of the affine layers of an [MLP], as pushed to them. *)
Definition MLP_layer_dims (mlp : MLP) : list (option Z * option Z) :=
  zip (dims mlp) (drop 1 (dims mlp)).

(** Modelled from the spec: the [Fork] brick is not under src; it holds
    one learned affine projection per output name. *)
Record Fork := {
  fork_names : list string;
  input_dim : option Z;
  fork_dims : gmap string Z
}.

Definition Fork_init (names : list string) : Fork :=
  {| fork_names := names; input_dim := None; fork_dims := ∅ |}.

(** [fork.apply(params, return_dict=True)] *)
Definition Fork_apply (fork : Fork) (layer : string → linear)
    (t : tensor R) : gmap string (tensor R) :=
  list_to_map ((λ name, (name, Linear_apply (layer name) t))
                 <$> fork_names fork).

(** Keyword arguments of a recurrent application: tensors for the ports,
    and the reserved flag [iterate]. *)
Record kwargs := Kwargs {
  ports : gmap string (tensor R);
  iterate : option bool
}.

(** The wrapped cell: the names declared by its [apply], its [get_dim]
    and its [apply]. *)
Record transition := {
  apply_sequences : list string;
  apply_states : list string;
  apply_contexts : list string;
  transition_get_dim : string → result Z;
  transition_apply : kwargs → result (tensor R)
}.

(** ** [AddParameters] *)

Record AddParameters := {
  self_transition : transition;
  num_params : Z;
  params_name : string;
  input_names : list string;
  state_name : string;
  fork : Fork;
  init : MLP
}.

(** Learned parameters of the children of [AddParameters]. *)
Record learned := {
  fork_layer : string → linear;
  init_layers : list linear
}.

(** [[
    self.input_names = [name for name in transition.apply.sequences
                        if name != 'mask']
    self.state_name = transition.apply.states[0]
    assert len(transition.apply.states) == 1
    self.fork = Fork(self.input_names)
    self.init = MLP([Identity()], name="init")
    ]]
    The initialization schemes ([weights_init], [biases_init]) and the list
    of children play no part in what follows and are left out. *)
Definition AddParameters_init (tr : transition) (n : Z) (pname : string)
    : result AddParameters :=
  let names := filter (λ name, name ≠ "mask") (apply_sequences tr) in
  sname ← list_getitem (apply_states tr) 0;
  _ ← py_assert (bool_decide (length (apply_states tr) = 1));
  Ok {| self_transition := tr;
        num_params := n;
        params_name := pname;
        input_names := names;
        state_name := sname;
        fork := Fork_init names;
        init := MLP_init [Identity] |}.

(** [{name: self.transition.get_dim(name) for name in self.input_names}] *)
Fixpoint get_dims (tr : transition) (names : list string)
    (acc : gmap string Z) : result (gmap string Z) :=
  match names with
  | [] => Ok acc
  | name :: rest =>
      d ← transition_get_dim tr name;
      get_dims tr rest (<[name := d]> acc)
  end.

(** [[
    self.fork.input_dim = self.num_params
    self.fork.fork_dims = {name: self.transition.get_dim(name)
                           for name in self.input_names}
    self.init.dims[0] = self.num_params
    self.init.dims[-1] = self.transition.get_dim(self.state_name)
    ]] *)
Definition push_allocation_config (self : AddParameters)
    : result AddParameters :=
  fdims ← get_dims (self_transition self) (input_names self) ∅;
  let fork' := {| fork_names := fork_names (fork self);
                  input_dim := Some (num_params self);
                  fork_dims := fdims |} in
  dims0 ← list_setitem (dims (init self)) 0 (Some (num_params self));
  sdim ← transition_get_dim (self_transition self) (state_name self);
  dims1 ← list_setitem dims0 (-1) (Some sdim);
  Ok {| self_transition := self_transition self;
        num_params := num_params self;
        params_name := params_name self;
        input_names := input_names self;
        state_name := state_name self;
        fork := fork';
        init := {| activations := activations (init self);
                   dims := dims1 |} |}.

(** [[
    def initial_state(self, batch_size, args, kwargs):
        return self.init.apply(kwargs['params'])
    ]] *)
Definition initial_state (self : AddParameters) (lp : learned)
    (batch_size : option Z) (kw : gmap string (tensor R))
    : result (tensor R) :=
  params ← dict_getitem kw "params";
  Ok (MLP_apply (init self) (init_layers lp) params).

(** [for name in self.input_names:
       inputs[name] = inputs[name] + forks[name]] *)
Fixpoint add_forks (names : list string)
    (inputs forks : gmap string (tensor R))
    : result (gmap string (tensor R)) :=
  match names with
  | [] => Ok inputs
  | name :: rest =>
      a ← dict_getitem inputs name;
      f ← dict_getitem forks name;
      add_forks rest (<[name := tadd a f]> inputs) forks
  end.

(** The keyword arguments that [apply] hands to the wrapped cell:
    [[
    inputs = {name: kwargs.pop(name) for name in self.input_names}
    params = kwargs.pop("params")
    forks = self.fork.apply(params, return_dict=True)
    for name in self.input_names:
        inputs[name] = inputs[name] + forks[name]
    kwargs.update(inputs)
    if kwargs.get('iterate', True):
        kwargs[self.state_name] = self.initial_state(None, params=params)
    ]] *)
Definition apply_kwargs (self : AddParameters) (lp : learned) (kw : kwargs)
    : result kwargs :=
  '(inputs, kw1) ← pop_each (input_names self) ∅ (ports kw);
  '(params, kw2) ← dict_pop kw1 "params";
  let forks := Fork_apply (fork self) (fork_layer lp) params in
  inputs' ← add_forks (input_names self) inputs forks;
  let kw3 := inputs' ∪ kw2 in
  if default true (iterate kw) then
    s ← initial_state self lp None {[ "params" := params ]};
    Ok (Kwargs (<[state_name self := s]> kw3) (iterate kw))
  else Ok (Kwargs kw3 (iterate kw)).

(** Delegation to the wrapped cell: [self.transition.apply] receives the
    keyword arguments computed above. *)
Definition AddParameters_apply (self : AddParameters) (lp : learned)
    (kw : kwargs) : result (tensor R) :=
  kw' ← apply_kwargs self lp kw;
  transition_apply (self_transition self) kw'.

(** [[
    def get_dim(self, name):
        if name == 'params':
            return self.num_params
        return self.transition.get_dim(name)
    ]] *)
Definition get_dim (self : AddParameters) (name : string) : result Z :=
  if decide (name = "params") then Ok (num_params self)
  else transition_get_dim (self_transition self) name.

(** A cell declares each port once, keeps the names of its states apart
    from those of its sequences, and uses neither ["params"] (the context
    added by the injector) nor ["mask"] as the name of a state. *)
Definition valid_cell (tr : transition) : Prop :=
  NoDup (apply_sequences tr)
  ∧ (∀ name, name ∈ apply_states tr → name ∉ apply_sequences tr)
  ∧ ("params" ∉ apply_sequences tr)
  ∧ ("params" ∉ apply_states tr)
  ∧ ("mask" ∉ apply_states tr).

(** A call that supplies every injected port, and [params] as context. *)
Definition supplied (self : AddParameters) (kw : kwargs)
    (params : tensor R) : Prop :=
  (∀ name, name ∈ input_names self → is_Some (ports kw !! name))
  ∧ ports kw !! "params" = Some params.

(** Modelled from the spec: allocation is not under src; it creates the
    parameter tensors of an affine layer with the dimensions pushed to
    the layer, a weight matrix of [input_dim] rows of [output_dim]
    entries and a bias of [output_dim] entries. *)
Definition allocated (ds : option Z * option Z) (lin : linear) : Prop :=
  ds.1 = Some (Z.of_nat (length (weights lin)))
  ∧ ds.2 = Some (Z.of_nat (length (biases lin)))
  ∧ Forall (λ row, length row = length (biases lin)) (weights lin).

End bricks.

Arguments linear : clear implicits.
Arguments activation : clear implicits.
Arguments MLP : clear implicits.
Arguments kwargs : clear implicits.
Arguments transition : clear implicits.
Arguments AddParameters : clear implicits.
Arguments learned : clear implicits.

(** ** [SeriesIterator] *)

Section series.
Context {R : Type} `{Scalar R}.

(** The random source: one draw of [numpy.random.RandomState], uniform on
    the fixed range [0, 1), and the state after it. *)
Context {rng : Type} (random_sample : rng → R * rng).
(** Conversion of a Python [int] to a scalar, and the cast to [floatX]. *)
Context (of_int : Z → R) (astype_floatX : R → R).

(** Arguments a function of the family is called with: an array, or a
    Python list of arrays. *)
Inductive pyval :=
  | PArray (t : tensor R)
  | PList (l : list (tensor R)).

(** The user-supplied function: what [inspect.getargspec] reports about
    its signature, and its body on a list of actual arguments. *)
Record pyfunc := {
  argspec_args : list string;
  argspec_defaults : nat;
  argspec_varargs : bool;
  body : list pyval → result (tensor R)
}.

(** A call with positional arguments only; a wrong number of arguments
    raises [TypeError]. *)
Definition call (f : pyfunc) (actuals : list pyval) : result (tensor R) :=
  let n := length actuals in
  let named := length (argspec_args f) in
  if bool_decide (named - argspec_defaults f ≤ n)
     && (bool_decide (n ≤ named) || argspec_varargs f)
  then body f actuals
  else Raise TypeError.

Fixpoint draw_vec (n : nat) (g : rng) : list R * rng :=
  match n with
  | 0 => ([], g)
  | S n' =>
      let '(r, g1) := random_sample g in
      let '(rs, g2) := draw_vec n' g1 in
      (r :: rs, g2)
  end.

Fixpoint draw_mat (rows cols : nat) (g : rng) : list (list R) * rng :=
  match rows with
  | 0 => ([], g)
  | S rows' =>
      let '(v, g1) := draw_vec cols g in
      let '(vs, g2) := draw_mat rows' cols g1 in
      (v :: vs, g2)
  end.

(** [rng.uniform(size=(rows, cols))]: a negative dimension is an error. *)
Definition rng_uniform (g : rng) (rows cols : Z)
    : result (list (list R) * rng) :=
  if decide (0 ≤ rows ∧ 0 ≤ cols)%Z
  then Ok (draw_mat (Z.to_nat rows) (Z.to_nat cols) g)
  else Raise ValueError.

(** [list(params.T)]: the columns of a matrix with [cols] columns. *)
Definition columns (m : list (list R)) (cols : nat) : list (tensor R) :=
  (λ j, of_vec ((λ row, nth j row rzero) <$> m)) <$> seq 0 cols.

(** The value stored by [x[i, :, 0] = v] in a row of [n] elements: [v] is
    broadcast, leading axes of size one are dropped. *)
Fixpoint assign_row (n : nat) (v : tensor R) : result (list R) :=
  match v with
  | Sc r => Ok (replicate n r)
  | Arr l =>
      match as_vec l with
      | Some xs =>
          if decide (length xs = n) then Ok xs
          else match xs with
               | [r] => Ok (replicate n r)
               | _ => Raise ValueError
               end
      | None =>
          match l with
          | [t] => assign_row n t
          | _ => Raise ValueError
          end
      end
  end.

Record SeriesIterator := {
  func : pyfunc;
  seq_len : Z;
  batch_size : Z;
  series_num_params : Z
}.

(** [self.num_params = len(inspect.getargspec(self.func).args) - 1] *)
Definition SeriesIterator_init (f : pyfunc) (len bs : Z) : SeriesIterator :=
  {| func := f; seq_len := len; batch_size := bs;
     series_num_params := (Z.of_nat (length (argspec_args f)) - 1)%Z |}.

(** The arguments of the call in the loop of [next]: the list
    [[list(params.T)] + [i * numpy.ones(self.batch_size)]]. *)
Definition next_actuals (self : SeriesIterator) (params : list (list R))
    (i : nat) : list pyval :=
  [PList (columns params (Z.to_nat (series_num_params self)))]
  ++ [PArray (of_vec (replicate (Z.to_nat (batch_size self))
                                (rmul (of_int (Z.of_nat i)) rone)))].

(** [for i in range(self.seq_len): x[i, :, 0] = self.func(...)] *)
Fixpoint next_rows (self : SeriesIterator) (params : list (list R))
    (steps : list nat) : result (list (list R)) :=
  match steps with
  | [] => Ok []
  | i :: rest =>
      v ← call (func self) (next_actuals self params i);
      row ← assign_row (Z.to_nat (batch_size self)) v;
      rows ← next_rows self params rest;
      Ok (row :: rows)
  end.

Record batch := { batch_x : tensor R; batch_params : tensor R }.

(** [[
    params = self.rng.uniform(size=(self.batch_size, self.num_params))
    params = params.astype(floatX)
    x = numpy.zeros((self.seq_len, self.batch_size, 1), dtype=floatX)
    for i in range(self.seq_len): ...
    return dict(x=x, params=params)
    ]] *)
Definition next (self : SeriesIterator) (g : rng) : result (batch * rng) :=
  '(drawn, g') ← rng_uniform g (batch_size self) (series_num_params self);
  let params := map (map astype_floatX) drawn in
  _ ← (if decide (0 ≤ seq_len self)%Z then Ok () else Raise ValueError);
  rows ← next_rows self params (seq 0 (Z.to_nat (seq_len self)));
  Ok ({| batch_x := Arr ((λ row, Arr ((λ r, Arr [Sc r]) <$> row)) <$> rows);
         batch_params := of_mat params |}, g').

(** The target of sequence [j] at time [t] the specification asks for:
    the function applied to the parameters of that sequence, with the
    time as last argument. *)
Definition family_value (f : pyfunc) (params_j : list R) (t : nat)
    : result (tensor R) :=
  call f (((λ p, PArray (Sc p)) <$> params_j)
          ++ [PArray (Sc (rmul (of_int (Z.of_nat t)) rone))]).

(** *** The wiring of [main]
    [[
    function = eval(args.function)
    num_params = len(inspect.getargspec(function).args) - 1
    with_params = AddParameters(transition, num_params, "params",
                                name="with_params")
    ]] *)
Definition main_num_params (function : pyfunc) : Z :=
  (Z.of_nat (length (argspec_args function)) - 1)%Z.

Definition main_with_params (tr : transition R) (function : pyfunc)
    : result (AddParameters R) :=
  AddParameters_init tr (main_num_params function) "params".

End series.

Arguments pyval : clear implicits.
Arguments pyfunc : clear implicits.
Arguments SeriesIterator : clear implicits.
Arguments batch : clear implicits.

(** ** The training cost of [main] and its noise *)

Section graph.
Context {R : Type} `{Scalar R}.

(** Modelled from the spec: [ComputationGraph] is not under src.  A cost
    graph over scalar components: graph inputs (the components of
    [tensor.tensor3('x')] and [tensor.matrix("params")]), learnable
    parameters, draws of the noise source, constants and arithmetic. *)
Inductive expr :=
  | Input (name : string)
  | Shared (name : string)
  | Normal (site : string) (std : R)
  | Lit (r : R)
  | Add (a b : expr)
  | Sub (a b : expr)
  | Mul (a b : expr).

(** [cost.inputs] *)
Fixpoint inputs (g : expr) : list string :=
  match g with
  | Input name => [name]
  | Shared _ | Normal _ _ | Lit _ => []
  | Add a b | Sub a b | Mul a b => inputs a ++ inputs b
  end.

(** Modelled from the spec: [apply_noise] is not under src.  Zero-mean
    Gaussian noise of standard deviation [level] is added to each of the
    listed variables of the graph. *)
Fixpoint apply_noise (g : expr) (variables : list string) (level : R)
    : expr :=
  match g with
  | Input name =>
      if decide (name ∈ variables)
      then Add (Input name) (Normal name level)
      else Input name
  | Shared name => Shared name
  | Normal site std => Normal site std
  | Lit r => Lit r
  | Add a b => Add (apply_noise a variables level) (apply_noise b variables level)
  | Sub a b => Sub (apply_noise a variables level) (apply_noise b variables level)
  | Mul a b => Mul (apply_noise a variables level) (apply_noise b variables level)
  end.

(** [[
    cost = ComputationGraph(generator.cost(...).sum())
    cost = apply_noise(cost, cost.inputs, args.input_noise)
    ]] *)
Definition train_cost (generator_cost : expr) (input_noise : R) : expr :=
  let cost := generator_cost in
  apply_noise cost (inputs cost) input_noise.

(** Values of the graph inputs and of the learnable parameters, and the
    standard normal draw made at each site. *)
Record env := {
  env_input : string → R;
  env_shared : string → R;
  env_normal : string → R
}.

Fixpoint eval (e : env) (g : expr) : R :=
  match g with
  | Input name => env_input e name
  | Shared name => env_shared e name
  | Normal site std => rmul std (env_normal e site)
  | Lit r => r
  | Add a b => radd (eval e a) (eval e b)
  | Sub a b => rsub (eval e a) (eval e b)
  | Mul a b => rmul (eval e a) (eval e b)
  end.

(** Modelled from the spec: the gradient engine is an external
    collaborator; [grad w g] is the derivative of [g] with respect to the
    learnable parameter [w]. *)
Fixpoint grad (w : string) (g : expr) : expr :=
  match g with
  | Shared name => if decide (name = w) then Lit rone else Lit rzero
  | Input _ | Normal _ _ | Lit _ => Lit rzero
  | Add a b => Add (grad w a) (grad w b)
  | Sub a b => Sub (grad w a) (grad w b)
  | Mul a b => Add (Mul (grad w a) b) (Mul a (grad w b))
  end.

(** The gradient component the trainer obtains for [w] from a cost. *)
Definition gradient (w : string) (cost : expr) (e : env) : R :=
  eval e (grad w cost).

(** The gradient component as the specification describes it: the
    gradient of the plain cost plus noise of the given deviation. *)
Definition spec_noisy_gradient (w : string) (cost : expr) (level : R)
    (e : env) : R :=
  radd (gradient w cost e) (rmul level (env_normal e w)).

(** The environment in which every graph input carries its noise. *)
Definition noisy_inputs (e : env) (level : R) : env :=
  {| env_input := λ name,
       radd (env_input e name) (rmul level (env_normal e name));
     env_shared := env_shared e;
     env_normal := env_normal e |}.
End graph.

Arguments expr : clear implicits.
Arguments env : clear implicits.

(** ** Scoring a batch *)

Section scoring.
Context {R : Type} `{Scalar R}.

(** Selection of the sequences [σ] of a batch, along the leading axis. *)
Definition gather {A} (σ : list nat) (l : list A) : list A :=
  omap (λ j, l !! j) σ.

Definition tgather (σ : list nat) (t : tensor R) : tensor R :=
  match t with
  | Sc r => Sc r
  | Arr l => Arr (gather σ l)
  end.

Definition zeros_like (t : tensor R) : tensor R := tmap (λ _, rzero) t.

Context (self : AddParameters R) (lp : learned R).
Context (readout_fn : tensor R → tensor R → tensor R).

(** The named inputs of one step: every input port of the cell receives
    the fed-back value. *)
Definition step_ports (state input params : tensor R)
    : gmap string (tensor R) :=
  <["params" := params]>
    (<[state_name self := state]>
       (list_to_map ((λ name, (name, input)) <$> input_names self))).

(** Modelled from the spec: [SequenceGenerator] is not under src.  The
    loop of the scoring mode: the feedback is the previous target, the
    step cost is the emitter's cost of the readout, and the state is
    advanced by the injector's [apply] (with [iterate=False], so that the
    state of the previous step is the one used). *)
Fixpoint scoring_steps (state prev params : tensor R)
    (targets : list (tensor R)) : result (list (tensor R)) :=
  match targets with
  | [] => Ok []
  | target_t :: rest =>
      let input_t := prev in
      let readout_t := readout_fn state input_t in
      let cost_t := Emitter_cost readout_t target_t in
      state' ← AddParameters_apply self lp
                 (Kwargs (step_ports state input_t params) (Some false));
      costs ← scoring_steps state' target_t params rest;
      Ok (cost_t :: costs)
  end.

Definition scoring_costs (targets : list (tensor R)) (params : tensor R)
    : result (list (tensor R)) :=
  match targets with
  | [] => Ok []
  | target_0 :: _ =>
      state ← initial_state self lp None {[ "params" := params ]};
      scoring_steps state (zeros_like target_0) params targets
  end.

(** The keyword arguments that reach the cell in one step of the loop,
    as matrices with one row per sequence. *)
Definition step_kw (s i p : list (list R)) : gmap string (list (list R)) :=
  <[state_name self := s]>
    (list_to_map
       ((λ name, (name, zip_with (zip_with radd) i
                          (affine (fork_layer lp name) <$> p)))
          <$> input_names self)).

(** The cost of each sequence: the step costs summed over time. *)
Definition per_sequence_costs (costs : list (tensor R)) : tensor R :=
  sum_axis 0 (Arr costs).

(** A binary operation on batches that treats every sequence alike. *)
Definition batchwise (B : nat) (f : tensor R → tensor R → tensor R) : Prop :=
  ∀ s i : list (list R), length s = B → length i = B →
    ∃ r, length r = B ∧ f (of_mat s) (of_mat i) = of_mat r ∧
      ∀ σ, σ ≡ₚ seq 0 B →
        f (of_mat (gather σ s)) (of_mat (gather σ i)) = of_mat (gather σ r).

(** A cell that treats every sequence alike. *)
Definition batchwise_cell (B : nat) (cell : kwargs R → result (tensor R))
    : Prop :=
  ∀ (kw : gmap string (list (list R))) (it : option bool),
    map_Forall (λ _ m, length m = B) kw →
    (∀ s, cell (Kwargs (of_mat <$> kw) it) = Ok s →
          ∃ m, s = of_mat m ∧ length m = B) ∧
    (∀ σ, σ ≡ₚ seq 0 B →
          cell (Kwargs (of_mat <$> (gather σ <$> kw)) it)
          = tgather σ <$> cell (Kwargs (of_mat <$> kw) it)).
End scoring.

(** ** The rest of the program *)

Section injector_contexts.
Context {R : Type} `{Scalar R}.

(** [[
    @apply.property('contexts')
    def apply_contexts(self):
        return [self.params_name] + self.transition.apply.contexts
    ]] *)
Definition AddParameters_apply_contexts (self : AddParameters R)
    : list string :=
  [params_name self] ++ apply_contexts (self_transition self).
End injector_contexts.

Section initialization.
(** An initialization scheme ([Orthogonal()], [IsotropicGaussian(0.01)],
    [Constant(0)], ...): an object, which Python takes as true; an unset
    scheme is [None]. *)
Context {scheme : Type}.

(** The initialization attributes of a brick. *)
Record init_config := {
  weights_init : option scheme;
  biases_init : option scheme
}.

(** [[
    def _push_initialization_config(self):
        for child in self.children:
            if self.weights_init:
                child.weights_init = self.weights_init
            if self.biases_init:
                child.biases_init = self.biases_init
    ]]
    The children are given in the order of [self.children]: the
    transition, the fork and [init]. *)
Definition push_initialization_config (self : init_config)
    (children : list init_config) : list init_config :=
  (λ child,
     {| weights_init := match weights_init self with
                        | Some w => Some w
                        | None => weights_init child
                        end;
        biases_init := match biases_init self with
                       | Some b => Some b
                       | None => biases_init child
                       end |}) <$> children.
End initialization.

Arguments init_config : clear implicits.

Section plot.
Context {R : Type} `{Scalar R}.
Context (of_int : Z → R).

(** The call of [function] in the plot mode of [main]: its arguments are
    the unpacked list [list(param_values) + [T]], the parameters spread
    over the leading arguments and the time last. *)
Definition plot_call (function : pyfunc R) (param_values : list R) (T : nat)
    : result (tensor R) :=
  call function (((λ p, PArray (Sc p)) <$> param_values)
                 ++ [PArray (Sc (of_int (Z.of_nat T)))]).

Fixpoint plot_desired_steps (function : pyfunc R) (param_values : list R)
    (steps : list nat) : result (list (tensor R)) :=
  match steps with
  | [] => Ok []
  | T :: rest =>
      v ← plot_call function param_values T;
      vs ← plot_desired_steps function param_values rest;
      Ok (v :: vs)
  end.

(** [[
    desired = numpy.array([function(...) for T in range(args.steps)])
    ]] *)
Definition plot_desired (function : pyfunc R) (param_values : list R)
    (steps : Z) : result (list (tensor R)) :=
  plot_desired_steps function param_values (seq 0 (Z.to_nat steps)).

(** [((actual - desired) ** 2).sum()] *)
Definition plot_mse (actual : tensor R) (desired : list (tensor R)) : R :=
  tsum (tsqr (tsub actual (Arr desired))).
End plot.

(** ** Inputs for the examples *)

Section example_inputs.
Local Open Scope Z_scope.

(** A cell with a mask, whose new state is the sum of the state and the
    input. *)
Definition example_cell : transition Z :=
  {| apply_sequences := ["mask"; "inputs"];
     apply_states := ["states"];
     apply_contexts := [];
     transition_get_dim := λ name,
       if decide (name = "inputs") then Ok 2
       else if decide (name = "states") then Ok 2
       else Raise ValueError;
     transition_apply := λ kw,
       s ← dict_getitem (ports kw) "states";
       i ← dict_getitem (ports kw) "inputs";
       Ok (tadd s i) |}.

(** The injector that [main] builds around it for a function of one
    parameter. *)
Definition example_injector : AddParameters Z :=
  {| self_transition := example_cell;
     num_params := 1;
     params_name := "params";
     input_names := ["inputs"];
     state_name := "states";
     fork := Fork_init ["inputs"];
     init := MLP_init [Identity] |}.

(** The same injector after the allocation configuration was pushed. *)
Definition example_allocated : AddParameters Z :=
  {| self_transition := example_cell;
     num_params := 1;
     params_name := "params";
     input_names := ["inputs"];
     state_name := "states";
     fork := {| fork_names := ["inputs"];
                input_dim := Some 1;
                fork_dims := {[ "inputs" := 2 ]} |};
     init := {| activations := [Identity]; dims := [Some 1; Some 2] |} |}.

Definition example_learned : learned Z :=
  {| fork_layer := λ _, Linear [[1; 1]] [0; 0];
     init_layers := [Linear [[2; 3]] [1; 0]] |}.

(** A call of one step for a batch of one sequence. *)
Definition example_kwargs : kwargs Z :=
  Kwargs (<["inputs" := of_mat [[1; 2]]]>
            (<["mask" := of_vec [1]]>
               (<["states" := of_mat [[7; 7]]]>
                  {[ "params" := of_mat [[3]] ]})))
         None.

(** The batch that [next] returns for [example_ramp], three steps and two
    sequences, from the seed 1. *)
Definition example_batch : batch Z :=
  {| batch_x := Arr [Arr [Arr [Sc 0]; Arr [Sc 0]];
                     Arr [Arr [Sc 1]; Arr [Sc 1]];
                     Arr [Arr [Sc 2]; Arr [Sc 2]]];
     batch_params := of_mat [[1]; [1]] |}.

(** Targets of two steps for two sequences, and their parameters. *)
Definition example_targets : list (list (list Z)) :=
  [[[1; 2]; [3; 4]]; [[5; 6]; [7; 8]]].
Definition example_params : list (list Z) := [[1]; [5]].

(** The readout of the examples: the state itself. *)
Definition example_readout (state input : tensor Z) : tensor Z := state.

(** A generator of pseudo-random scalars. *)
Definition example_sample (s : Z) : Z * Z := (s mod 7, s * 5 + 3).

(** [lambda a, x: a * x]; in [next] its first argument is a list of one
    array, and the product is taken by broadcasting. *)
Definition example_ramp : pyfunc Z :=
  {| argspec_args := ["a"; "x"];
     argspec_defaults := 0;
     argspec_varargs := false;
     body := λ actuals,
       match actuals with
       | [PList [a]; PArray x] => Ok (Arr [tzip Z.mul a x])
       | [PArray a; PArray x] => Ok (tzip Z.mul a x)
       | _ => Raise TypeError
       end |}.

(** [lambda a, b, x: a * x + b] *)
Definition example_line : pyfunc Z :=
  {| argspec_args := ["a"; "b"; "x"];
     argspec_defaults := 0;
     argspec_varargs := false;
     body := λ actuals,
       match actuals with
       | [PArray a; PArray b; PArray x] => Ok (tadd (tzip Z.mul a x) b)
       | _ => Raise TypeError
       end |}.

(** The squared error of a learnable bias against the input. *)
Definition example_cost : expr Z :=
  Mul (Sub (Shared "w") (Input "x")) (Sub (Shared "w") (Input "x")).

(** A cost that does not read the inputs. *)
Definition example_penalty : expr Z := Mul (Shared "w") (Shared "w").

(** All values zero, every draw of the noise source equal to one. *)
Definition example_env : env Z :=
  {| env_input := λ _, 0; env_shared := λ _, 0; env_normal := λ _, 1 |}.
End example_inputs.

(** ** More inputs for the examples *)

Section more_example_inputs.
Local Open Scope Z_scope.

(** The call of the examples without its context, and without its input. *)
Definition example_kwargs_no_params : kwargs Z :=
  Kwargs (delete "params" (ports example_kwargs)) None.

Definition example_kwargs_no_inputs : kwargs Z :=
  Kwargs (delete "inputs" (ports example_kwargs)) None.

(** The context passed under the name ["theta"] only. *)
Definition example_kwargs_theta : kwargs Z :=
  Kwargs (<["theta" := of_mat [[3]]]>
            (delete "params" (ports example_kwargs))) None.

(** An injector that declares its context as ["theta"]. *)
Definition example_theta_injector : AddParameters Z :=
  {| self_transition := example_cell;
     num_params := 1;
     params_name := "theta";
     input_names := ["inputs"];
     state_name := "states";
     fork := Fork_init ["inputs"];
     init := MLP_init [Identity] |}.

(** The data source of the examples, and one without steps. *)
Definition example_series : SeriesIterator Z :=
  SeriesIterator_init example_ramp 3 2.

Definition example_series_empty : SeriesIterator Z :=
  SeriesIterator_init example_ramp 0 2.

(** A data source with a negative batch size. *)
Definition example_series_negative : SeriesIterator Z :=
  SeriesIterator_init example_ramp 3 (-1).

(** The data source for the function of two parameters. *)
Definition example_series_line : SeriesIterator Z :=
  SeriesIterator_init example_line 5 1.
End more_example_inputs.

(** ** Scalars of the machine *)

(** The binary64 numbers with their rounding arithmetic, as an instance of
    the scalars: the arithmetic of [floatX = float64]. *)
#[export] Instance float_scalar : Scalar float := {|
  rzero := 0%float; rone := 1%float;
  radd := PrimFloat.add; rsub := PrimFloat.sub; rmul := PrimFloat.mul
|}.

Section float_example_inputs.

(** The cell of the examples, over the machine numbers: the new state is
    the sum of the state and the input. *)
Definition float_cell : transition float :=
  {| apply_sequences := ["mask"; "inputs"];
     apply_states := ["states"];
     apply_contexts := [];
     transition_get_dim := λ name,
       if decide (name = "inputs") then Ok 1%Z
       else if decide (name = "states") then Ok 1%Z
       else Raise ValueError;
     transition_apply := λ kw,
       s ← dict_getitem (ports kw) "states";
       i ← dict_getitem (ports kw) "inputs";
       Ok (tadd s i) |}.

Definition float_injector : AddParameters float :=
  {| self_transition := float_cell;
     num_params := 1;
     params_name := "params";
     input_names := ["inputs"];
     state_name := "states";
     fork := Fork_init ["inputs"];
     init := MLP_init [Identity] |}.

(** Layers that copy their input. *)
Definition float_learned : learned float :=
  {| fork_layer := λ _, Linear [[1%float]] [0%float];
     init_layers := [Linear [[1%float]] [0%float]] |}.

Definition float_readout (state input : tensor float) : tensor float := state.

(** One step for three sequences with the target zero, and the parameters
    of the three sequences. *)
Definition float_targets : list (list (list float)) :=
  [[[0%float]; [0%float]; [0%float]]].
Definition float_params : list (list float) :=
  [[1e8%float]; [1%float]; [1%float]].
End float_example_inputs.

(** * Properties *)

(** ** Tensors built from nested lists *)

Section tensor_facts.
Context {R : Type} `{Scalar R}.
Implicit Types (u v : list R) (m : list (list R)) (f : R → R → R).

Lemma tzip_Arr f (la lb : list (tensor R)) :
  tzip f (Arr la) (Arr lb) = Arr (zip_with (tzip f) la lb).
Proof. reflexivity. Qed.

Lemma tzip_of_vec f u v :
  tzip f (of_vec u) (of_vec v) = of_vec (zip_with f u v).
Proof.
  unfold of_vec. rewrite tzip_Arr. f_equal. revert v.
  induction u as [|x xs IH]; intros [|y ys]; csimpl; [done..|].
  by rewrite IH.
Qed.

Lemma tzip_of_mat f (a b : list (list R)) :
  tzip f (of_mat a) (of_mat b) = of_mat (zip_with (zip_with f) a b).
Proof.
  unfold of_mat. rewrite tzip_Arr. f_equal. revert b.
  induction a as [|x xs IH]; intros [|y ys]; [done..|].
  rewrite !fmap_cons. cbn [zip_with]. by rewrite fmap_cons, tzip_of_vec, IH.
Qed.

Lemma tzip_of_tensor3 f (a b : list (list (list R))) :
  tzip f (of_tensor3 a) (of_tensor3 b)
  = of_tensor3 (zip_with (zip_with (zip_with f)) a b).
Proof.
  unfold of_tensor3. rewrite tzip_Arr. f_equal. revert b.
  induction a as [|x xs IH]; intros [|y ys]; [done..|].
  rewrite !fmap_cons. cbn [zip_with]. by rewrite fmap_cons, tzip_of_mat, IH.
Qed.

Lemma tbroadcast_same_rank f (a b : tensor R) :
  ndim a = ndim b → tbroadcast f a b = tzip f a b.
Proof.
  intros Hrank. unfold tbroadcast. rewrite Hrank.
  by rewrite !decide_False by lia.
Qed.

Lemma ndim_of_vec v : ndim (of_vec v) = 1.
Proof. by destruct v. Qed.

Lemma ndim_of_mat m : m ≠ [] → ndim (of_mat m) = 2.
Proof.
  destruct m as [|v m]; [done|]. intros _.
  change (S (ndim (of_vec v)) = 2). by rewrite ndim_of_vec.
Qed.

Lemma tmap_of_vec (g : R → R) v : tmap g (of_vec v) = of_vec (g <$> v).
Proof.
  unfold of_vec. simpl. f_equal. by rewrite <-!list_fmap_compose.
Qed.

Lemma tmap_of_mat (g : R → R) m : tmap g (of_mat m) = of_mat (map g <$> m).
Proof.
  unfold of_mat. simpl. f_equal. rewrite <-!list_fmap_compose.
  apply list_fmap_ext. intros _ v _. apply tmap_of_vec.
Qed.

Lemma tmap_of_tensor3 (g : R → R) (x : list (list (list R))) :
  tmap g (of_tensor3 x) = of_tensor3 (map (map g) <$> x).
Proof.
  unfold of_tensor3. simpl. f_equal. rewrite <-!list_fmap_compose.
  apply list_fmap_ext. intros _ v _. apply tmap_of_mat.
Qed.

Lemma foldl_tzip_Sc (x : R) (xs : list R) :
  foldl (tzip radd) (Sc x) (Sc <$> xs) = Sc (foldl radd x xs).
Proof. revert x. induction xs as [|y ys IH]; intros x; simpl; [done|apply IH]. Qed.

Lemma sum_axis_0_of_vec v : sum_axis 0 (of_vec v) = Sc (rsum v).
Proof. destruct v as [|x xs]; [done|]. apply foldl_tzip_Sc. Qed.

Lemma sum_axis_1_of_mat m : sum_axis 1 (of_mat m) = of_vec (rsum <$> m).
Proof.
  unfold of_mat, of_vec. simpl. f_equal. rewrite <-!list_fmap_compose.
  apply list_fmap_ext. intros _ v _. apply sum_axis_0_of_vec.
Qed.

Lemma sum_axis_2_of_tensor3 (x : list (list (list R))) :
  sum_axis 2 (of_tensor3 x) = of_mat (map rsum <$> x).
Proof.
  unfold of_tensor3, of_mat. cbn [sum_axis]. f_equal.
  rewrite <-!list_fmap_compose.
  apply list_fmap_ext. intros _ v _. apply sum_axis_1_of_mat.
Qed.

Lemma elements_of_vec v : elements (of_vec v) = v.
Proof.
  unfold of_vec. cbn [elements].
  induction v as [|x xs IH]; [done|].
  rewrite fmap_cons. cbn [map concat elements]. by rewrite IH.
Qed.

Lemma elements_of_mat m : elements (of_mat m) = concat m.
Proof.
  unfold of_mat. cbn [elements].
  induction m as [|v m IH]; [done|].
  rewrite fmap_cons. cbn [map concat]. by rewrite IH, elements_of_vec.
Qed.

Lemma fmap_zip_with_3 {A B C D} (g : C → D) (k : A → B → C) (a : list A) (b : list B) :
  g <$> zip_with k a b = zip_with (λ x y, g (k x y)) a b.
Proof. revert b. induction a; intros [|??]; simpl; f_equal; auto. Qed.

(** The emitter's cost of a batch of readout rows. *)
Lemma Emitter_cost_of_mat (r o : list (list R)) :
  r ≠ [] → o ≠ [] →
  Emitter_cost (of_mat r) (of_mat o)
  = of_vec (zip_with row_cost r o).
Proof.
  intros Hr Ho. unfold Emitter_cost, tsub, tsqr.
  rewrite tbroadcast_same_rank by by rewrite !ndim_of_mat.
  rewrite ndim_of_mat by done. simpl Nat.sub.
  rewrite tzip_of_mat, tmap_of_mat, sum_axis_1_of_mat. f_equal.
  rewrite !fmap_zip_with_3. apply zip_with_ext; [|done..].
  intros rv ov. unfold row_cost. by rewrite fmap_zip_with_3.
Qed.

End tensor_facts.

(** ** Selections and sums *)

Lemma gather_cons {A} (j : nat) (σ : list nat) (l : list A) :
  gather (j :: σ) l
  = match l !! j with Some x => x :: gather σ l | None => gather σ l end.
Proof. reflexivity. Qed.

Lemma gather_shift {A} (x : A) (σ : list nat) (l : list A) :
  gather (S <$> σ) (x :: l) = gather σ l.
Proof.
  induction σ as [|j σ IH]; [done|].
  rewrite fmap_cons, !gather_cons, IH. done.
Qed.

Lemma gather_seq {A} (l : list A) : gather (seq 0 (length l)) l = l.
Proof.
  induction l as [|x l IH]; [done|].
  simpl length. rewrite <-cons_seq, gather_cons. simpl.
  by rewrite <-fmap_S_seq, gather_shift, IH.
Qed.

Lemma gather_fmap {A B} (f : A → B) (σ : list nat) (l : list A) :
  gather σ (f <$> l) = f <$> gather σ l.
Proof.
  induction σ as [|j σ IH]; [done|].
  rewrite !gather_cons, list_lookup_fmap, IH. by destruct (l !! j).
Qed.

Lemma gather_zip_with {A B C} (f : A → B → C) (σ : list nat)
    (a : list A) (b : list B) :
  length a = length b →
  gather σ (zip_with f a b) = zip_with f (gather σ a) (gather σ b).
Proof.
  intros Hlen. induction σ as [|j σ IH]; [done|].
  rewrite !gather_cons, lookup_zip_with, IH.
  destruct (a !! j) as [x|] eqn:Ha, (b !! j) as [y|] eqn:Hb; simpl; try done.
  - apply lookup_lt_Some in Ha. apply lookup_ge_None in Hb. lia.
  - apply lookup_lt_Some in Hb. apply lookup_ge_None in Ha. lia.
Qed.

Lemma gather_Permutation {A} (σ : list nat) (l : list A) :
  σ ≡ₚ seq 0 (length l) → gather σ l ≡ₚ l.
Proof.
  intros Hσ. unfold gather. rewrite Hσ. fold (gather (seq 0 (length l)) l).
  by rewrite gather_seq.
Qed.

Lemma gather_length {A} (σ : list nat) (l : list A) :
  σ ≡ₚ seq 0 (length l) → length (gather σ l) = length l.
Proof. intros Hσ. by rewrite (gather_Permutation σ l Hσ). Qed.

Section sum_facts.
Context {R : Type} `{Scalar R}.
Context `{!Comm (=) (radd (R:=R)), !Assoc (=) (radd (R:=R))}.

Lemma foldl_radd_assoc (x y : R) (l : list R) :
  foldl radd (radd x y) l = radd x (foldl radd y l).
Proof.
  revert y. induction l as [|z l IH]; intros y; simpl; [done|].
  by rewrite <-IH, (assoc_L radd).
Qed.

Lemma rsum_cons (x y : R) (l : list R) :
  rsum (x :: y :: l) = radd x (rsum (y :: l)).
Proof. simpl. apply foldl_radd_assoc. Qed.

(** Under commutativity and associativity the sum does not depend on the
    order of the summands. *)
Lemma rsum_Permutation (l k : list R) : l ≡ₚ k → rsum l = rsum k.
Proof.
  induction 1 as [|x l k Hlk IH|x y l|l1 l2 l3 _ IH1 _ IH2].
  - done.
  - destruct l as [|y l].
    + by apply Permutation_nil_l in Hlk as ->.
    + destruct k as [|z k]; [by apply Permutation_nil_r in Hlk|].
      by rewrite !rsum_cons, IH.
  - simpl. by rewrite (comm_L radd y x).
  - congruence.
Qed.
End sum_facts.

Lemma lookup_list_to_map_names {V} (f : string → V) (names : list string) k :
  (list_to_map ((λ name, (name, f name)) <$> names) : gmap string V) !! k
  = if decide (k ∈ names) then Some (f k) else None.
Proof.
  induction names as [|x l IH].
  - by rewrite decide_False by set_solver.
  - rewrite fmap_cons, list_to_map_cons.
    destruct (decide (k = x)) as [->|Hne].
    + by rewrite lookup_insert_eq, decide_True by set_solver.
    + rewrite lookup_insert_ne by done. rewrite IH.
      destruct (decide (k ∈ l)).
      * by rewrite decide_True by set_solver.
      * by rewrite decide_False by set_solver.
Qed.

(** ** Containers *)

Section container_facts.
Context {V : Type}.
Implicit Types d acc : gmap string V.

Lemma pop_each_Ok names acc d :
  NoDup names →
  (∀ name, name ∈ names → is_Some (d !! name)) →
  ∃ acc' d', pop_each names acc d = Ok (acc', d') ∧
    (∀ k, acc' !! k = if decide (k ∈ names) then d !! k else acc !! k) ∧
    (∀ k, d' !! k = if decide (k ∈ names) then None else d !! k).
Proof.
  intros Hnd. revert acc d.
  induction Hnd as [|name rest Hnotin Hnd IH]; intros acc d Hall.
  - exists acc, d. split; [done|]. split; intros k; by rewrite decide_False by set_solver.
  - destruct (Hall name) as [v Hv]; [set_solver|].
    destruct (IH (<[name := v]> acc) (delete name d)) as (acc' & d' & Hpop & Hacc & Hd).
    { intros k Hk. rewrite lookup_delete_ne by set_solver. apply Hall. set_solver. }
    exists acc', d'. split.
    { simpl. unfold dict_pop. rewrite Hv. simpl. exact Hpop. }
    split; intros k.
    + rewrite Hacc. destruct (decide (k = name)) as [->|Hne].
      * rewrite decide_False by done. rewrite decide_True by set_solver.
        by rewrite lookup_insert_eq.
      * destruct (decide (k ∈ rest)) as [Hin|Hnin].
        -- rewrite decide_True by set_solver. by rewrite lookup_delete_ne.
        -- rewrite decide_False by set_solver. by rewrite lookup_insert_ne.
    + rewrite Hd. destruct (decide (k = name)) as [->|Hne].
      * rewrite decide_False by done. rewrite decide_True by set_solver.
        by rewrite lookup_delete_eq.
      * destruct (decide (k ∈ rest)) as [Hin|Hnin].
        -- by rewrite decide_True by set_solver.
        -- rewrite decide_False by set_solver. by rewrite lookup_delete_ne.
Qed.

End container_facts.

(** ** [AddParameters] *)

Section injector_facts.
Context {R : Type} `{Scalar R}.
Implicit Types (tr : transition R) (self : AddParameters R)
  (lp : learned R) (kw : kwargs R).

Lemma AddParameters_init_Ok tr n pname self :
  AddParameters_init tr n pname = Ok self →
  self_transition self = tr
  ∧ num_params self = n
  ∧ params_name self = pname
  ∧ input_names self = filter (λ name, name ≠ "mask") (apply_sequences tr)
  ∧ apply_states tr = [state_name self]
  ∧ fork self = Fork_init (input_names self)
  ∧ init self = MLP_init [Identity].
Proof.
  unfold AddParameters_init, list_getitem, list_index, py_assert.
  destruct (apply_states tr) as [|s [|s' rest]]; simpl; try done.
  intros [= <-]. by simpl.
Qed.

Lemma input_names_spec tr n pname self name :
  AddParameters_init tr n pname = Ok self →
  name ∈ input_names self ↔ name ∈ apply_sequences tr ∧ name ≠ "mask".
Proof.
  intros (_ & _ & _ & -> & _)%AddParameters_init_Ok.
  by rewrite list_elem_of_filter, (comm and).
Qed.

Lemma Fork_apply_lookup (fk : Fork) layer (t : tensor R) name :
  Fork_apply fk layer t !! name
  = if decide (name ∈ fork_names fk)
    then Some (Linear_apply (layer name) t) else None.
Proof.
  unfold Fork_apply. induction (fork_names fk) as [|x l IH].
  - by rewrite decide_False by set_solver.
  - rewrite fmap_cons, list_to_map_cons.
    destruct (decide (name = x)) as [->|Hne].
    + by rewrite lookup_insert_eq, decide_True by set_solver.
    + rewrite lookup_insert_ne by done. rewrite IH.
      destruct (decide (name ∈ l)).
      * by rewrite decide_True by set_solver.
      * by rewrite decide_False by set_solver.
Qed.

Lemma add_forks_Ok names (ins forks : gmap string (tensor R)) :
  NoDup names →
  (∀ name, name ∈ names → is_Some (ins !! name) ∧ is_Some (forks !! name)) →
  ∃ ins', add_forks names ins forks = Ok ins' ∧
    ∀ k, ins' !! k = if decide (k ∈ names)
                     then a ← ins !! k; f ← forks !! k; Some (tadd a f)
                     else ins !! k.
Proof.
  intros Hnd. revert ins.
  induction Hnd as [|name rest Hnotin Hnd IH]; intros ins Hall.
  - exists ins. split; [done|]. intros k. by rewrite decide_False by set_solver.
  - destruct (Hall name) as [[a Ha] [f Hf]]; [set_solver|].
    destruct (IH (<[name := tadd a f]> ins)) as (ins' & Hadd & Hins').
    { intros k Hk. split; [|apply Hall; set_solver].
      rewrite lookup_insert_ne by set_solver. apply Hall. set_solver. }
    exists ins'. split.
    { simpl. unfold dict_getitem. rewrite Ha, Hf. simpl. exact Hadd. }
    intros k. rewrite Hins'. destruct (decide (k = name)) as [->|Hne].
    + rewrite decide_False by done. rewrite decide_True by set_solver.
      by rewrite lookup_insert_eq, Ha, Hf.
    + destruct (decide (k ∈ rest)).
      * rewrite decide_True by set_solver. by rewrite lookup_insert_ne.
      * rewrite decide_False by set_solver. by rewrite lookup_insert_ne.
Qed.

(** What the wrapped cell receives, port by port. *)
Lemma apply_kwargs_Ok self lp kw params :
  NoDup (input_names self) →
  "params" ∉ input_names self →
  fork_names (fork self) = input_names self →
  (∀ name, name ∈ input_names self → is_Some (ports kw !! name)) →
  ports kw !! "params" = Some params →
  ∃ kw', apply_kwargs self lp kw = Ok kw' ∧
    iterate kw' = iterate kw ∧
    ∀ k, ports kw' !! k =
      if decide (k = state_name self ∧ iterate kw ≠ Some false)
      then Some (MLP_apply (init self) (init_layers lp) params)
      else if decide (k ∈ input_names self)
      then a ← ports kw !! k;
           Some (tadd a (Linear_apply (fork_layer lp k) params))
      else if decide (k = "params") then None
      else ports kw !! k.
Proof.
  intros Hnd Hpar Hfork Hall Hparams. unfold apply_kwargs.
  destruct (pop_each_Ok (input_names self) ∅ (ports kw) Hnd Hall)
    as (ins & kw1 & -> & Hins & Hkw1). simpl.
  unfold dict_pop. rewrite Hkw1, decide_False, Hparams by done. simpl.
  destruct (add_forks_Ok (input_names self) ins
              (Fork_apply (fork self) (fork_layer lp) params) Hnd)
    as (ins' & -> & Hins').
  { intros name Hin. rewrite Hins, decide_True, Fork_apply_lookup by done.
    rewrite Hfork, decide_True by done. split; [by apply Hall|by eexists]. }
  simpl.
  assert (∀ k, (ins' ∪ delete "params" kw1) !! k =
               if decide (k ∈ input_names self)
               then a ← ports kw !! k;
                    Some (tadd a (Linear_apply (fork_layer lp k) params))
               else if decide (k = "params") then None
               else ports kw !! k) as Hunion.
  { intros k. rewrite lookup_union, Hins'.
    destruct (decide (k ∈ input_names self)) as [Hin|Hnin].
    - rewrite Hins, decide_True, Fork_apply_lookup by done.
      rewrite Hfork, decide_True by done.
      destruct (Hall k Hin) as [a ->]. simpl.
      by destruct (delete "params" kw1 !! k).
    - rewrite Hins, decide_False, lookup_empty by done.
      rewrite (left_id None _).
      destruct (decide (k = "params")) as [->|Hne].
      + by rewrite lookup_delete_eq.
      + by rewrite lookup_delete_ne, Hkw1, decide_False. }
  unfold initial_state, dict_getitem. rewrite lookup_singleton_eq. simpl.
  destruct (iterate kw) as [[|]|] eqn:Hit; simpl.
  - eexists. split; [done|]. split; [done|]. simpl. intros k.
    destruct (decide (k = state_name self)) as [->|Hne].
    + by rewrite lookup_insert_eq, decide_True.
    + rewrite lookup_insert_ne, decide_False by naive_solver. apply Hunion.
  - eexists. split; [done|]. split; [done|]. simpl. intros k.
    rewrite decide_False by naive_solver. apply Hunion.
  - eexists. split; [done|]. split; [done|]. simpl. intros k.
    destruct (decide (k = state_name self)) as [->|Hne].
    + by rewrite lookup_insert_eq, decide_True.
    + rewrite lookup_insert_ne, decide_False by naive_solver. apply Hunion.
Qed.

Lemma valid_cell_injector tr n pname self :
  valid_cell tr →
  AddParameters_init tr n pname = Ok self →
  NoDup (input_names self)
  ∧ ("params" ∉ input_names self)
  ∧ ("mask" ∉ input_names self)
  ∧ (state_name self ∉ input_names self)
  ∧ state_name self ≠ "params"
  ∧ state_name self ≠ "mask"
  ∧ fork_names (fork self) = input_names self.
Proof.
  intros (Hnd & Hsep & Hps & Hpst & Hmask) Hinit.
  pose proof (input_names_spec tr n pname self) as Hin.
  destruct (AddParameters_init_Ok _ _ _ _ Hinit)
    as (_ & _ & _ & Hnames & Hstates & Hfork & _).
  rewrite Hstates in Hsep, Hpst, Hmask.
  repeat split.
  - rewrite Hnames. by apply NoDup_filter.
  - rewrite Hin by done. naive_solver.
  - rewrite Hin by done. naive_solver.
  - rewrite Hin by done. intros [Hs _]. apply (Hsep (state_name self)); set_solver.
  - set_solver.
  - set_solver.
  - by rewrite Hfork.
Qed.

(** C1: with a wired cell and a call that supplies every injected port
    and [params], the wrapped cell is delegated to, and it receives for
    every input port other than ["mask"] the supplied value plus the
    fork's affine projection of [params] for that port; a ["mask"]
    argument is passed through as supplied. *)
Theorem apply_adds_fork_of_params tr n pname self lp kw params :
  valid_cell tr →
  AddParameters_init tr n pname = Ok self →
  supplied self kw params →
  ∃ kw', apply_kwargs self lp kw = Ok kw'
    ∧ AddParameters_apply self lp kw = transition_apply tr kw'
    ∧ (∀ name v, name ∈ apply_sequences tr → name ≠ "mask" →
         ports kw !! name = Some v →
         ports kw' !! name
         = Some (tadd v (Linear_apply (fork_layer lp name) params)))
    ∧ ports kw' !! "mask" = ports kw !! "mask".
Proof.
  intros Hvalid Hinit [Hall Hparams].
  destruct (valid_cell_injector _ _ _ _ Hvalid Hinit)
    as (Hnd & Hpar & Hmask & Hstate & Hsp & Hsm & Hfork).
  destruct (apply_kwargs_Ok self lp kw params Hnd Hpar Hfork Hall Hparams)
    as (kw' & Happ & _ & Hports).
  exists kw'. split; [done|]. split.
  { unfold AddParameters_apply. rewrite Happ. simpl.
    by destruct (AddParameters_init_Ok _ _ _ _ Hinit) as (-> & _). }
  split.
  - intros name v Hseq Hne Hv.
    assert (name ∈ input_names self) as Hin
      by by apply (input_names_spec tr n pname).
    rewrite Hports, decide_False, decide_True, Hv by naive_solver. done.
  - rewrite Hports, !decide_False by naive_solver. done.
Qed.

(** C5: [get_dim("params")] is [num_params], and every other name is
    answered by the wrapped cell, before and after the allocation
    configuration is pushed. *)
Theorem get_dim_params_or_delegate tr n pname self :
  AddParameters_init tr n pname = Ok self →
  get_dim self "params" = Ok n
  ∧ (∀ name, name ≠ "params" → get_dim self name = transition_get_dim tr name)
  ∧ (∀ self' name, push_allocation_config self = Ok self' →
       get_dim self' name = get_dim self name).
Proof.
  intros (Htr & Hn & _)%AddParameters_init_Ok. split; [|split].
  - unfold get_dim. by rewrite decide_True, Hn.
  - intros name Hne. unfold get_dim. by rewrite decide_False, Htr.
  - intros self' name. unfold push_allocation_config.
    destruct (get_dims _ _ _); [|done]. simpl.
    destruct (list_setitem _ _ _); [|done]. simpl.
    destruct (transition_get_dim _ _); [|done]. simpl.
    destruct (list_setitem _ _ _); [|done]. simpl.
    by intros [= <-].
Qed.

(** C6: construction around a cell without a state port or with several
    state ports fails ([IndexError], respectively [AssertionError]); with
    exactly one state port it succeeds and that port is the state name. *)
Theorem init_requires_one_state tr n pname :
  match apply_states tr with
  | [] => AddParameters_init tr n pname = Raise IndexError
  | [s] => ∃ self, AddParameters_init tr n pname = Ok self
                   ∧ state_name self = s
  | _ :: _ :: _ => AddParameters_init tr n pname = Raise AssertionError
  end.
Proof.
  unfold AddParameters_init, list_getitem, list_index, py_assert.
  destruct (apply_states tr) as [|s [|s' rest]]; simpl; [done| |done].
  by eexists.
Qed.



Lemma as_vec_scalars (v : list R) : as_vec (Sc <$> v) = Some v.
Proof. induction v as [|x xs IH]; [done|]. csimpl. by rewrite IH. Qed.

Lemma as_vec_rows (m : list (list R)) :
  m ≠ [] → as_vec (of_vec <$> m) = None.
Proof. by destruct m. Qed.

Lemma along_last_of_vec (g : list R → list R) (v : list R) :
  along_last g (of_vec v) = of_vec (g v).
Proof. unfold of_vec at 1. cbn [along_last]. by rewrite as_vec_scalars. Qed.

Lemma along_last_of_mat (g : list R → list R) (m : list (list R)) :
  m ≠ [] → along_last g (of_mat m) = of_mat (g <$> m).
Proof.
  intros Hm. unfold of_mat at 1. cbn [along_last].
  rewrite as_vec_rows by done. unfold of_mat. f_equal.
  rewrite <-!list_fmap_compose.
  apply list_fmap_ext. intros _ v _. apply along_last_of_vec.
Qed.

Lemma length_affine (lin : linear R) (x : list R) :
  length (affine lin x) = length (biases lin).
Proof. apply length_imap. Qed.

Lemma push_allocation_config_Ok tr n pname self self' :
  AddParameters_init tr n pname = Ok self →
  push_allocation_config self = Ok self' →
  ∃ d, transition_get_dim tr (state_name self) = Ok d
    ∧ state_name self' = state_name self
    ∧ activations (init self') = [Identity]
    ∧ dims (init self') = [Some n; Some d]
    ∧ input_dim (fork self') = Some n.
Proof.
  intros (Htr & Hn & _ & _ & _ & _ & Hinit)%AddParameters_init_Ok.
  unfold push_allocation_config. rewrite Hinit, Htr, Hn.
  destruct (get_dims _ _ _); [|done]. simpl.
  destruct (transition_get_dim tr (state_name self)) as [d|]; [|done].
  simpl. intros [= <-]. by exists d.
Qed.

(** C4: once wired and allocated, [initial_state] is the affine projection
    of [params] by the one learned layer of [init], with no activation
    applied; that layer takes [num_params] inputs and produces as many
    outputs as the state port of the wrapped cell has dimensions. *)
Theorem initial_state_affine tr n pname self self' lp :
  AddParameters_init tr n pname = Ok self →
  push_allocation_config self = Ok self' →
  Forall2 allocated (MLP_layer_dims (init self')) (init_layers lp) →
  ∃ lin d,
    init_layers lp = [lin]
    ∧ transition_get_dim tr (state_name self') = Ok d
    ∧ Z.of_nat (length (weights lin)) = n
    ∧ Z.of_nat (length (biases lin)) = d
    ∧ (∀ bs (kws : gmap string (tensor R)) t, kws !! "params" = Some t →
         initial_state self' lp bs kws = Ok (Linear_apply lin t))
    ∧ (∀ p, Linear_apply lin (of_vec p) = of_vec (affine lin p)
            ∧ Z.of_nat (length (affine lin p)) = d)
    ∧ (∀ m, m ≠ [] → Linear_apply lin (of_mat m) = of_mat (affine lin <$> m)).
Proof.
  intros Hinit Hpush Halloc.
  destruct (push_allocation_config_Ok _ _ _ _ _ Hinit Hpush)
    as (d & Hd & Hsn & Hacts & Hdims & _).
  unfold MLP_layer_dims in Halloc. rewrite Hdims in Halloc. simpl in Halloc.
  apply Forall2_cons_inv_l in Halloc as (lin & rest & Hlin & Hrest & Hlp).
  apply Forall2_nil_inv_l in Hrest as ->.
  destruct Hlin as (Hin & Hout & _). simpl in Hin, Hout.
  exists lin, d. rewrite Hsn. repeat split; try done.
  - congruence.
  - congruence.
  - intros bs kws t Ht. unfold initial_state, dict_getitem. rewrite Ht. simpl.
    unfold MLP_apply. by rewrite Hacts, Hlp.
  - apply along_last_of_vec.
  - rewrite length_affine. congruence.
  - intros m Hm. by apply along_last_of_mat.
Qed.

End injector_facts.

(** ** The emitter *)

Section emitter_claims.
Context {R : Type} `{Scalar R}.

Lemma ndim_of_tensor3 (x : list (list (list R))) :
  ndim (of_tensor3 x) = 3 ↔ ∃ m x', x = m :: x' ∧ m ≠ [].
Proof.
  destruct x as [|m x']; [split; [done|by intros (?&?&?&?)]|].
  change (ndim (of_tensor3 (m :: x'))) with (S (ndim (of_mat m))).
  destruct m as [|v m].
  - split; [done|]. by intros (?&?&[= <- <-]&?).
  - rewrite ndim_of_mat by done. split; [|done]. intros _. by eexists _, _.
Qed.

(** C3, as the code has it: the emitter's cost of a rank-3 readout is the
    squared error summed over the last (feature) axis, one number per
    time step and batch element; the caller sums what remains, over time
    and batch. *)
Theorem Emitter_cost_sums_feature_axis (r o : list (list (list R))) :
  ndim (of_tensor3 r) = 3 →
  ndim (of_tensor3 o) = 3 →
  Emitter_cost (of_tensor3 r) (of_tensor3 o)
  = of_mat (zip_with (zip_with row_cost) r o)
  ∧ total_cost (Emitter_cost (of_tensor3 r) (of_tensor3 o))
    = rsum (concat (zip_with (zip_with row_cost) r o)).
Proof.
  intros Hr Ho.
  assert (Emitter_cost (of_tensor3 r) (of_tensor3 o)
          = of_mat (zip_with (zip_with row_cost) r o)) as Hcost.
  { unfold Emitter_cost, tsub, tsqr.
    rewrite tbroadcast_same_rank by congruence. rewrite Hr. simpl Nat.sub.
    rewrite tzip_of_tensor3, tmap_of_tensor3, sum_axis_2_of_tensor3. f_equal.
    rewrite !fmap_zip_with_3. apply zip_with_ext; [|done..].
    intros rm om.
    change (map rsum (map (map (λ x, rmul x x)) (zip_with (zip_with rsub) rm om)))
      with (rsum <$> (fmap (λ x, rmul x x) <$> (zip_with (zip_with rsub) rm om))).
    rewrite !fmap_zip_with_3. apply zip_with_ext; [|done..].
    intros rv ov. unfold row_cost. by rewrite fmap_zip_with_3. }
  split; [done|].
  unfold total_cost, tsum. by rewrite Hcost, elements_of_mat.
Qed.
End emitter_claims.


(** ** [SeriesIterator] and the wiring of [main] *)

Section series_facts.
Context {R : Type} `{Scalar R}.
Context {rng : Type} (random_sample : rng → R * rng).
Context (of_int : Z → R) (astype_floatX : R → R).

Lemma has_shape_of_vec (v : list R) n :
  length v = n → has_shape [n] (of_vec v).
Proof.
  intros Hlen. unfold of_vec. simpl. rewrite length_fmap. split; [done|].
  apply Forall_fmap, Forall_forall. by intros.
Qed.

Lemma has_shape_of_mat (m : list (list R)) rows cols :
  length m = rows → Forall (λ row, length row = cols) m →
  has_shape [rows; cols] (of_mat m).
Proof.
  intros Hlen Hrows. unfold of_mat.
  change (length (of_vec <$> m) = rows
          ∧ Forall (has_shape [cols]) (of_vec <$> m)).
  rewrite length_fmap. split; [done|].
  apply Forall_fmap. eapply Forall_impl; [exact Hrows|].
  intros v Hv. by apply has_shape_of_vec.
Qed.

Lemma draw_vec_length n g : length (draw_vec random_sample n g).1 = n.
Proof.
  revert g. induction n as [|n IH]; intros g; simpl; [done|].
  destruct (random_sample g) as [r g1]. specialize (IH g1).
  destruct (draw_vec random_sample n g1) as [rs g2]. simpl in *. by rewrite IH.
Qed.

Lemma draw_mat_shape rows cols g :
  length (draw_mat random_sample rows cols g).1 = rows
  ∧ Forall (λ row, length row = cols) (draw_mat random_sample rows cols g).1.
Proof.
  revert g. induction rows as [|rows IH]; intros g; simpl; [by split|].
  pose proof (draw_vec_length cols g) as Hv.
  destruct (draw_vec random_sample cols g) as [v g1].
  specialize (IH g1).
  destruct (draw_mat random_sample rows cols g1) as [vs g2]. simpl in *.
  destruct IH as [IH1 IH2]. split; [by rewrite IH1|by constructor].
Qed.

(** C10: the data source and the wiring of [main] derive the same
    [num_params] from the function, and the [params] array of every batch
    has [batch_size] rows of as many entries as the injector declares for
    ["params"]. *)
Theorem batch_params_shape_is_get_dim (f : pyfunc R) (len bs : Z)
    (g g' : rng) (b : batch R) (tr : transition R) (wp : AddParameters R) :
  next random_sample of_int astype_floatX (SeriesIterator_init f len bs) g
    = Ok (b, g') →
  main_with_params tr f = Ok wp →
  series_num_params (SeriesIterator_init f len bs) = main_num_params f
  ∧ main_num_params f = (Z.of_nat (length (argspec_args f)) - 1)%Z
  ∧ ∃ n : nat, get_dim wp "params" = Ok (Z.of_nat n)
      ∧ has_shape [Z.to_nat bs; n] (batch_params b).
Proof.
  intros Hnext Hmain. split; [done|]. split; [done|].
  unfold main_with_params in Hmain.
  apply AddParameters_init_Ok in Hmain as (_ & Hn & _).
  unfold next, rng_uniform in Hnext. simpl in Hnext.
  fold (main_num_params f) in Hnext.
  destruct (decide (0 ≤ bs ∧ 0 ≤ main_num_params f)%Z) as [[Hbs Hnp]|];
    [|done].
  simpl in Hnext.
  pose proof (draw_mat_shape (Z.to_nat bs) (Z.to_nat (main_num_params f)) g)
    as [Hrows Hcols].
  destruct (draw_mat random_sample _ _ g) as [drawn g1]. simpl in *.
  destruct (decide (0 ≤ len)%Z); [|done]. simpl in Hnext.
  destruct (next_rows _ _ _ _) as [rows|]; [|done]. simpl in Hnext.
  injection Hnext as <- <-. simpl.
  exists (Z.to_nat (main_num_params f)). split.
  - unfold get_dim. rewrite decide_True by done. rewrite Hn. f_equal. lia.
  - apply has_shape_of_mat.
    + by rewrite length_map.
    + apply Forall_forall. intros row (v & -> & Hv)%list_elem_of_fmap.
      rewrite length_map. by eapply Forall_forall in Hcols.
Qed.

(** The loop of [next] calls the function with two arguments, whatever
    the number of its parameters is. *)
Lemma next_wrong_arity (self : SeriesIterator R) (g : rng) :
  argspec_defaults (func self) = 0 →
  argspec_varargs (func self) = false →
  length (argspec_args (func self)) ≠ 2 →
  (0 ≤ batch_size self)%Z →
  (0 ≤ series_num_params self)%Z →
  (0 < seq_len self)%Z →
  next random_sample of_int astype_floatX self g = Raise TypeError.
Proof.
  intros Hdef Hvar Hargs Hbs Hnp Hlen. unfold next, rng_uniform.
  rewrite decide_True by lia. simpl.
  destruct (draw_mat random_sample _ _ g) as [drawn g1]. simpl.
  rewrite decide_True by lia. simpl.
  destruct (Z.to_nat (seq_len self)) as [|steps] eqn:Hsteps; [lia|].
  simpl. unfold call. simpl. rewrite Hdef, Hvar, Nat.sub_0_r, orb_false_r.
  destruct (bool_decide _ && bool_decide _) eqn:Hb; [|done].
  apply andb_true_iff in Hb as [?%bool_decide_eq_true ?%bool_decide_eq_true].
  lia.
Qed.
End series_facts.


(** ** The noise of the training cost *)

Section graph_facts.
Context {R : Type} `{Scalar R}.
Implicit Types (g : expr R) (e : env R).

Lemma eval_apply_noise g variables level e :
  (∀ name, name ∈ inputs g → name ∈ variables) →
  eval e (apply_noise g variables level) = eval (noisy_inputs e level) g.
Proof.
  induction g as [name|name|site std|r|a IHa b IHb|a IHa b IHb|a IHa b IHb];
    intros Hin; simpl in *; try done.
  - rewrite decide_True by set_solver. done.
  - rewrite IHa, IHb by set_solver. done.
  - rewrite IHa, IHb by set_solver. done.
  - rewrite IHa, IHb by set_solver. done.
Qed.

Lemma eval_grad_apply_noise w g variables level e :
  radd rzero rzero = rzero →
  (∀ name, name ∈ inputs g → name ∈ variables) →
  eval e (grad w (apply_noise g variables level))
  = eval (noisy_inputs e level) (grad w g).
Proof.
  intros Hzero.
  induction g as [name|name|site std|r|a IHa b IHb|a IHa b IHb|a IHa b IHb];
    intros Hin; simpl in *; try done.
  - by rewrite decide_True by set_solver.
  - by case_decide.
  - rewrite IHa, IHb by set_solver. done.
  - rewrite IHa, IHb by set_solver. done.
  - rewrite IHa, IHb, !eval_apply_noise by set_solver. done.
Qed.

Lemma eval_ext e1 e2 g :
  (∀ name, env_input e1 name = env_input e2 name) →
  (∀ name, env_shared e1 name = env_shared e2 name) →
  (∀ name, env_normal e1 name = env_normal e2 name) →
  eval e1 g = eval e2 g.
Proof.
  intros Hi Hs Hn. induction g; simpl; congruence.
Qed.

(** C2, as the code has it: the noise of [--input-noise] is added to every
    input of the cost graph (the training sequences and their parameters),
    so the cost and each gradient component are those of the plain cost at
    the noisy inputs; with level zero both are exactly the plain ones. *)
Theorem input_noise_perturbs_graph_inputs g level e w :
  (∀ x, radd x rzero = x) →
  (∀ y, rmul rzero y = rzero) →
  eval e (train_cost g level) = eval (noisy_inputs e level) g
  ∧ gradient w (train_cost g level) e = gradient w g (noisy_inputs e level)
  ∧ eval e (train_cost g rzero) = eval e g
  ∧ gradient w (train_cost g rzero) e = gradient w g e.
Proof.
  intros Hadd Hmul. unfold train_cost, gradient.
  assert (∀ g', eval (noisy_inputs e rzero) g' = eval e g') as Hplain.
  { intros g'. apply eval_ext; try done.
    intros name. simpl. by rewrite Hmul, Hadd. }
  rewrite !eval_apply_noise, !eval_grad_apply_noise, !Hplain by done.
  done.
Qed.
End graph_facts.


(** ** Scoring a batch *)

Section scoring_facts.
Context {R : Type} `{Scalar R}.
Context (tr : transition R) (n : Z) (pname : string).
Context (self : AddParameters R) (lp : learned R).
Context (readout_fn : tensor R → tensor R → tensor R) (B : nat).
Hypothesis Hvalid : valid_cell tr.
Hypothesis Hinit : AddParameters_init tr n pname = Ok self.
Hypothesis HB : 0 < B.
Implicit Types (s i p r : list (list R)) (σ : list nat).

Lemma nonempty_of_length {A} (l : list A) : length l = B → l ≠ [].
Proof using HB. intros Hlen ->. simpl in Hlen. lia. Qed.

Lemma tgather_of_mat σ s : tgather σ (of_mat s) = of_mat (gather σ s).
Proof. unfold of_mat. simpl. by rewrite gather_fmap. Qed.

Lemma tgather_of_vec σ (v : list R) : tgather σ (of_vec v) = of_vec (gather σ v).
Proof. unfold of_vec. simpl. by rewrite gather_fmap. Qed.

Lemma tadd_of_mat s i :
  length s = B → length i = B →
  tadd (of_mat s) (of_mat i) = of_mat (zip_with (zip_with radd) s i).
Proof using HB.
  intros Hs Hi. unfold tadd.
  rewrite tbroadcast_same_rank, tzip_of_mat; [done|].
  rewrite !ndim_of_mat; [done|by apply nonempty_of_length..].
Qed.

Lemma step_kw_lookup s i p k :
  step_kw self lp s i p !! k
  = if decide (k = state_name self) then Some s
    else if decide (k ∈ input_names self)
    then Some (zip_with (zip_with radd) i (affine (fork_layer lp k) <$> p))
    else None.
Proof.
  unfold step_kw. destruct (decide (k = state_name self)) as [->|Hne].
  - by rewrite lookup_insert_eq.
  - rewrite lookup_insert_ne by done.
    apply (lookup_list_to_map_names
             (λ name, zip_with (zip_with radd) i
                        (affine (fork_layer lp name) <$> p))).
Qed.

Lemma step_ports_lookup (st inp par : tensor R) k :
  step_ports self st inp par !! k
  = if decide (k = "params") then Some par
    else if decide (k = state_name self) then Some st
    else if decide (k ∈ input_names self) then Some inp
    else None.
Proof.
  unfold step_ports. destruct (decide (k = "params")) as [->|Hne].
  - by rewrite lookup_insert_eq.
  - rewrite lookup_insert_ne by done.
    destruct (decide (k = state_name self)) as [->|Hne'].
    + by rewrite lookup_insert_eq.
    + rewrite lookup_insert_ne by done.
      apply (lookup_list_to_map_names (λ _, inp)).
Qed.

(** One step of the loop, in terms of matrices. *)
Lemma apply_step s i p :
  length s = B → length i = B → length p = B →
  AddParameters_apply self lp
    (Kwargs (step_ports self (of_mat s) (of_mat i) (of_mat p)) (Some false))
  = transition_apply tr (Kwargs (of_mat <$> step_kw self lp s i p) (Some false)).
Proof using Hvalid Hinit HB.
  intros Hs Hi Hp.
  destruct (valid_cell_injector _ _ _ _ Hvalid Hinit)
    as (Hnd & Hpar & Hmask & Hstate & Hsp & Hsm & Hfork).
  set (kw := Kwargs (step_ports self (of_mat s) (of_mat i) (of_mat p))
                    (Some false)).
  assert (∀ name, name ∈ input_names self → is_Some (ports kw !! name))
    as Hall.
  { intros name Hin. simpl. rewrite step_ports_lookup.
    repeat case_decide; first [done | by eexists]. }
  assert (ports kw !! "params" = Some (of_mat p)) as Hparams.
  { simpl. by rewrite step_ports_lookup, decide_True. }
  destruct (apply_kwargs_Ok self lp kw (of_mat p) Hnd Hpar Hfork Hall Hparams)
    as (kw' & Happ & Hit & Hports).
  unfold AddParameters_apply. rewrite Happ. simpl.
  destruct (AddParameters_init_Ok _ _ _ _ Hinit) as (-> & _).
  f_equal. destruct kw' as [pk it]. simpl in *. subst it. f_equal.
  apply map_eq. intros k.
  rewrite Hports, lookup_fmap, step_kw_lookup, step_ports_lookup.
  rewrite decide_False by naive_solver.
  destruct (decide (k ∈ input_names self)) as [Hin|Hnin].
  - rewrite !decide_False by set_solver. simpl.
    unfold Linear_apply. rewrite along_last_of_mat by by apply nonempty_of_length.
    rewrite tadd_of_mat; [done..|by rewrite length_fmap].
  - destruct (decide (k = "params")) as [->|Hne].
    + by rewrite decide_False.
    + by destruct (decide (k = state_name self)).
Qed.

Lemma step_kw_lengths s i p :
  length s = B → length i = B → length p = B →
  map_Forall (λ _ m, length m = B) (step_kw self lp s i p).
Proof.
  intros Hs Hi Hp k m. rewrite step_kw_lookup.
  repeat case_decide; intros [= <-]; [done|].
  rewrite length_zip_with, length_fmap. lia.
Qed.

Lemma step_kw_gather σ s i p :
  length s = B → length i = B → length p = B →
  gather σ <$> step_kw self lp s i p
  = step_kw self lp (gather σ s) (gather σ i) (gather σ p).
Proof.
  intros Hs Hi Hp. apply map_eq. intros k.
  rewrite lookup_fmap, !step_kw_lookup.
  repeat case_decide; simpl; try done.
  rewrite gather_zip_with by (rewrite length_fmap; lia).
  by rewrite gather_fmap.
Qed.

Hypothesis Hread : batchwise B readout_fn.
Hypothesis Hcell : batchwise_cell B (transition_apply tr).

Lemma gather_length_B {A} σ (l : list A) :
  σ ≡ₚ seq 0 B → length l = B → length (gather σ l) = B.
Proof. intros Hσ Hl. rewrite gather_length; [done|by rewrite Hl]. Qed.

Lemma Emitter_cost_gather σ r t :
  σ ≡ₚ seq 0 B → length r = B → length t = B →
  Emitter_cost (of_mat (gather σ r)) (of_mat (gather σ t))
  = tgather σ (Emitter_cost (of_mat r) (of_mat t)).
Proof using HB.
  intros Hσ Hr Ht.
  rewrite !Emitter_cost_of_mat
    by (apply nonempty_of_length; auto using gather_length_B).
  rewrite tgather_of_vec, gather_zip_with by lia. done.
Qed.

Lemma scoring_steps_gather σ (targets : list (list (list R))) s prev p :
  σ ≡ₚ seq 0 B →
  Forall (λ x, length x = B) targets →
  length s = B → length prev = B → length p = B →
  scoring_steps self lp readout_fn
    (of_mat (gather σ s)) (of_mat (gather σ prev)) (of_mat (gather σ p))
    (of_mat <$> (gather σ <$> targets))
  = map (tgather σ)
      <$> scoring_steps self lp readout_fn
            (of_mat s) (of_mat prev) (of_mat p) (of_mat <$> targets).
Proof using Hvalid Hinit HB Hread Hcell.
  intros Hσ Htargets. revert s prev.
  induction Htargets as [|t rest Ht Hrest IH]; intros s prev Hs Hprev Hp;
    [done|].
  rewrite !fmap_cons. cbn [scoring_steps].
  destruct (Hread s prev Hs Hprev) as (r & Hr & Hrd & Hrdσ).
  rewrite Hrd, (Hrdσ σ Hσ), Emitter_cost_gather by done.
  rewrite !apply_step by auto using gather_length_B.
  rewrite <-step_kw_gather by done.
  destruct (Hcell (step_kw self lp s prev p) (Some false))
    as [Hshape Heq]; [by apply step_kw_lengths|].
  rewrite (Heq σ Hσ).
  destruct (transition_apply tr _) as [st'|e]; [|done].
  destruct (Hshape st' eq_refl) as (m' & -> & Hm').
  cbn [fmap result_fmap mbind result_bind].
  rewrite tgather_of_mat, IH by done.
  by destruct (scoring_steps _ _ _ _ _ _ _).
Qed.

Lemma scoring_steps_shape (targets : list (list (list R))) s prev p costs :
  Forall (λ x, length x = B) targets →
  length s = B → length prev = B → length p = B →
  scoring_steps self lp readout_fn
    (of_mat s) (of_mat prev) (of_mat p) (of_mat <$> targets) = Ok costs →
  ∃ vs, costs = of_vec <$> vs ∧ Forall (λ v, length v = B) vs.
Proof using Hvalid Hinit HB Hread Hcell.
  intros Htargets. revert s prev costs.
  induction Htargets as [|t rest Ht Hrest IH];
    intros s prev costs Hs Hprev Hp.
  { intros [= <-]. by exists []. }
  rewrite !fmap_cons. cbn [scoring_steps].
  destruct (Hread s prev Hs Hprev) as (r & Hr & Hrd & _).
  rewrite Hrd, Emitter_cost_of_mat by by apply nonempty_of_length.
  rewrite apply_step by done.
  destruct (Hcell (step_kw self lp s prev p) (Some false))
    as [Hshape _]; [by apply step_kw_lengths|].
  destruct (transition_apply tr _) as [st'|e]; [|done].
  destruct (Hshape st' eq_refl) as (m' & -> & Hm'). simpl.
  destruct (scoring_steps _ _ _ _ _ _ _) as [costs'|] eqn:Hrec; [|done].
  simpl. intros [= <-].
  destruct (IH m' t costs' Hm' Ht Hp Hrec) as (vs & -> & Hvs).
  exists (zip_with row_cost r t :: vs). split; [done|].
  constructor; [|done]. rewrite length_zip_with. lia.
Qed.

Lemma initial_state_gather σ p :
  σ ≡ₚ seq 0 B → length p = B →
  ∃ s0, length s0 = B
    ∧ initial_state self lp None {[ "params" := of_mat p ]} = Ok (of_mat s0)
    ∧ initial_state self lp None {[ "params" := of_mat (gather σ p) ]}
      = Ok (of_mat (gather σ s0)).
Proof using Hinit HB.
  intros Hσ Hp. unfold initial_state, dict_getitem.
  rewrite !lookup_singleton_eq. simpl. unfold MLP_apply.
  destruct (AddParameters_init_Ok _ _ _ _ Hinit) as (_&_&_&_&_&_& ->).
  simpl. destruct (init_layers lp) as [|lin rest]; simpl.
  - by exists p.
  - exists (affine lin <$> p). rewrite length_fmap. split; [done|].
    unfold Linear_apply.
    rewrite !along_last_of_mat
      by (apply nonempty_of_length; auto using gather_length_B).
    by rewrite gather_fmap.
Qed.

Lemma foldl_tzip_of_vec (v : list R) (vs : list (list R)) :
  foldl (tzip radd) (of_vec v) (of_vec <$> vs)
  = of_vec (foldl (zip_with radd) v vs).
Proof.
  revert v. induction vs as [|u vs IH]; intros v; [done|].
  rewrite fmap_cons. cbn [foldl]. by rewrite tzip_of_vec, IH.
Qed.

Lemma gather_foldl_zip_with σ (v : list R) (vs : list (list R)) :
  length v = B → Forall (λ u, length u = B) vs →
  gather σ (foldl (zip_with radd) v vs)
  = foldl (zip_with radd) (gather σ v) (gather σ <$> vs).
Proof.
  intros Hv Hvs. revert v Hv.
  induction Hvs as [|u vs Hu Hvs IH]; intros v Hv; [done|].
  rewrite fmap_cons. cbn [foldl].
  rewrite IH by (rewrite length_zip_with; lia).
  by rewrite gather_zip_with by lia.
Qed.

Lemma per_sequence_costs_gather σ (vs : list (list R)) :
  Forall (λ v, length v = B) vs →
  per_sequence_costs (map (tgather σ) (of_vec <$> vs))
  = tgather σ (per_sequence_costs (of_vec <$> vs)).
Proof.
  intros Hvs. unfold per_sequence_costs. cbn [sum_axis].
  destruct Hvs as [|v vs Hv Hvs]; [done|].
  rewrite fmap_cons. cbn [map tsum_list].
  rewrite tgather_of_vec, foldl_tzip_of_vec.
  change (map (tgather σ) (of_vec <$> vs))
    with (tgather σ <$> (of_vec <$> vs)).
  rewrite <-list_fmap_compose.
  rewrite (list_fmap_ext _ (of_vec ∘ gather σ) vs)
    by (intros; apply tgather_of_vec).
  rewrite list_fmap_compose, foldl_tzip_of_vec, tgather_of_vec.
  by rewrite gather_foldl_zip_with.
Qed.

Lemma elements_rows (vs : list (list R)) :
  elements (Arr (of_vec <$> vs)) = concat vs.
Proof. apply (elements_of_mat vs). Qed.

Lemma total_cost_gather
    `{!Comm (=) (radd (R:=R)), !Assoc (=) (radd (R:=R))} σ
    (vs : list (list R)) :
  σ ≡ₚ seq 0 B →
  Forall (λ v, length v = B) vs →
  total_cost (Arr (map (tgather σ) (of_vec <$> vs)))
  = total_cost (Arr (of_vec <$> vs)).
Proof.
  intros Hσ Hvs. unfold total_cost, tsum.
  change (map (tgather σ) (of_vec <$> vs))
    with (tgather σ <$> (of_vec <$> vs)).
  rewrite <-list_fmap_compose.
  rewrite (list_fmap_ext _ (of_vec ∘ gather σ) vs)
    by (intros; apply tgather_of_vec).
  rewrite list_fmap_compose, !elements_rows.
  apply rsum_Permutation.
  induction Hvs as [|v vs Hv Hvs IH]; [done|].
  rewrite fmap_cons. cbn [concat].
  rewrite IH, gather_Permutation; [done|by rewrite Hv].
Qed.

Lemma elements_gather σ (vs : list (list R)) :
  σ ≡ₚ seq 0 B →
  Forall (λ v, length v = B) vs →
  elements (Arr (map (tgather σ) (of_vec <$> vs)))
  ≡ₚ elements (Arr (of_vec <$> vs)).
Proof.
  intros Hσ Hvs.
  change (map (tgather σ) (of_vec <$> vs))
    with (tgather σ <$> (of_vec <$> vs)).
  rewrite <-list_fmap_compose.
  rewrite (list_fmap_ext _ (of_vec ∘ gather σ) vs)
    by (intros; apply tgather_of_vec).
  rewrite list_fmap_compose, !elements_rows.
  induction Hvs as [|v vs Hv Hvs IH]; [done|].
  rewrite fmap_cons. cbn [concat].
  rewrite IH, gather_Permutation; [done|by rewrite Hv].
Qed.

(** C8, as the code has it: permuting the sequences of a batch, targets and
    parameters alike, permutes the costs of every step and the cost of
    every sequence in the same way; the total cost is the sum of the same
    summands in the permuted order, and it is unchanged when the addition
    of the scalars is commutative and associative. *)
Theorem scoring_permutes_sequence_costs σ
    (targets : list (list (list R))) (params : list (list R)) :
  σ ≡ₚ seq 0 B →
  Forall (λ x, length x = B) targets →
  length params = B →
  scoring_costs self lp readout_fn
    (of_mat <$> (gather σ <$> targets)) (of_mat (gather σ params))
  = map (tgather σ)
      <$> scoring_costs self lp readout_fn (of_mat <$> targets) (of_mat params)
  ∧ ∀ costs,
      scoring_costs self lp readout_fn (of_mat <$> targets) (of_mat params)
        = Ok costs →
      per_sequence_costs (map (tgather σ) costs)
        = tgather σ (per_sequence_costs costs)
      ∧ elements (Arr (map (tgather σ) costs)) ≡ₚ elements (Arr costs)
      ∧ (Comm (=) (radd (R:=R)) → Assoc (=) (radd (R:=R)) →
         total_cost (Arr (map (tgather σ) costs)) = total_cost (Arr costs)).
Proof using Hvalid Hinit HB Hread Hcell.
  intros Hσ Htargets Hp. unfold scoring_costs.
  destruct Htargets as [|t0 rest Ht0 Hrest].
  { split; [done|]. by intros costs [= <-]. }
  rewrite !fmap_cons.
  destruct (initial_state_gather σ params Hσ Hp) as (s0 & Hs0 & -> & ->).
  cbn [mbind result_bind]. unfold zeros_like.
  rewrite !tmap_of_mat, <-gather_fmap, <-!fmap_cons.
  assert (length (map (λ _ : R, rzero) <$> t0) = B) as Hz
    by by rewrite length_fmap.
  assert (Forall (λ x, length x = B) (t0 :: rest)) as Htargets
    by by constructor.
  split.
  - by apply scoring_steps_gather.
  - intros costs Hcosts.
    destruct (scoring_steps_shape _ _ _ _ _ Htargets Hs0 Hz Hp Hcosts)
      as (vs & -> & Hvs).
    split; [by apply per_sequence_costs_gather|].
    split; [by apply elements_gather|].
    intros Hcomm Hassoc. by apply total_cost_gather.
Qed.
End scoring_facts.

(** ** More on [AddParameters] *)

Section injector_more.
Context {R : Type} `{Scalar R}.
Implicit Types (tr : transition R) (self : AddParameters R)
  (lp : learned R) (kw : kwargs R).

Lemma pop_each_Raise {V} names (acc d : gmap string V) e :
  pop_each names acc d = Raise e → ∃ k, e = KeyError k ∧ k ∈ names.
Proof.
  revert acc d. induction names as [|name rest IH]; intros acc d; [done|].
  simpl. unfold dict_pop. destruct (d !! name) as [v|]; simpl.
  - intros (k & -> & Hk)%IH. exists k. split; [done|set_solver].
  - intros [= <-]. exists name. split; [done|set_solver].
Qed.

Lemma add_forks_Raise names (ins forks : gmap string (tensor R)) e :
  add_forks names ins forks = Raise e → ∃ k, e = KeyError k ∧ k ∈ names.
Proof.
  revert ins. induction names as [|name rest IH]; intros ins; [done|].
  simpl. unfold dict_getitem.
  destruct (ins !! name) as [a|]; simpl.
  2:{ intros [= <-]. exists name. split; [done|set_solver]. }
  destruct (forks !! name) as [f|]; simpl.
  2:{ intros [= <-]. exists name. split; [done|set_solver]. }
  intros (k & -> & Hk)%IH. exists k. split; [done|set_solver].
Qed.

(** Before the wrapped cell is reached, [apply] raises nothing but a
    [KeyError], and only for an injected port or for ["params"]. *)
Theorem apply_kwargs_raises_only_KeyError self lp kw e :
  apply_kwargs self lp kw = Raise e →
  ∃ k, e = KeyError k ∧ (k ∈ input_names self ∨ k = "params").
Proof.
  unfold apply_kwargs.
  destruct (pop_each (input_names self) ∅ (ports kw)) as [[ins kw1]|e1]
    eqn:Hpop; simpl.
  2:{ intros [= <-]. apply pop_each_Raise in Hpop as (k & -> & Hk).
      exists k. auto. }
  unfold dict_pop. destruct (kw1 !! "params") as [params|]; simpl.
  2:{ intros [= <-]. exists "params". auto. }
  destruct (add_forks _ _ _) as [ins'|e2] eqn:Hadd; simpl.
  2:{ intros [= <-]. apply add_forks_Raise in Hadd as (k & -> & Hk).
      exists k. auto. }
  unfold initial_state, dict_getitem. rewrite lookup_singleton_eq. simpl.
  by destruct (default true (iterate kw)).
Qed.


(** A call without the ["params"] context raises [KeyError("params")], and
    the wrapped cell is not called. *)
Theorem apply_without_params_raises self lp kw :
  NoDup (input_names self) →
  (∀ name, name ∈ input_names self → is_Some (ports kw !! name)) →
  ports kw !! "params" = None →
  apply_kwargs self lp kw = Raise (KeyError "params")
  ∧ AddParameters_apply self lp kw = Raise (KeyError "params").
Proof.
  intros Hnd Hall Hparams.
  assert (apply_kwargs self lp kw = Raise (KeyError "params")) as Happ.
  { unfold apply_kwargs.
    destruct (pop_each_Ok (input_names self) ∅ (ports kw) Hnd Hall)
      as (ins & kw1 & -> & _ & Hkw1). simpl.
    unfold dict_pop. rewrite Hkw1, Hparams. by case_decide. }
  split; [done|]. unfold AddParameters_apply. by rewrite Happ.
Qed.

Lemma pop_each_missing {V} names (acc d : gmap string V) :
  NoDup names →
  (∃ name, name ∈ names ∧ d !! name = None) →
  ∃ k, k ∈ names ∧ d !! k = None ∧ pop_each names acc d = Raise (KeyError k).
Proof.
  intros Hnd. revert acc d.
  induction Hnd as [|name rest Hnotin Hnd IH]; intros acc d (m & Hm & Hnone).
  { by apply elem_of_nil in Hm. }
  simpl. unfold dict_pop.
  destruct (d !! name) as [v|] eqn:Hv; simpl.
  - destruct (IH (<[name:=v]> acc) (delete name d)) as (k & Hk & Hdk & ->).
    { exists m. split; [set_solver|].
      rewrite lookup_delete_ne; [done|]. intros ->. congruence. }
    exists k. split; [set_solver|]. split; [|done].
    rewrite lookup_delete_ne in Hdk; [done|]. intros <-. done.
  - exists name. split; [set_solver|]. done.
Qed.

(** A call that leaves out an injected port raises [KeyError] for a port
    that is missing, and the wrapped cell is not called. *)
Theorem apply_without_port_raises self lp kw :
  NoDup (input_names self) →
  (∃ name, name ∈ input_names self ∧ ports kw !! name = None) →
  ∃ k, k ∈ input_names self ∧ ports kw !! k = None
    ∧ apply_kwargs self lp kw = Raise (KeyError k)
    ∧ AddParameters_apply self lp kw = Raise (KeyError k).
Proof.
  intros Hnd Hmiss.
  destruct (pop_each_missing (input_names self) ∅ (ports kw) Hnd Hmiss)
    as (k & Hk & Hnone & Hpop).
  exists k. split; [done|]. split; [done|].
  assert (apply_kwargs self lp kw = Raise (KeyError k)) as Happ.
  { unfold apply_kwargs. by rewrite Hpop. }
  split; [done|]. unfold AddParameters_apply. by rewrite Happ.
Qed.


Lemma get_dims_Ok tr names (acc : gmap string Z) :
  (∀ name, name ∈ names → ∃ d, transition_get_dim tr name = Ok d) →
  ∃ m, get_dims tr names acc = Ok m
    ∧ ∀ k, m !! k = if decide (k ∈ names)
                    then match transition_get_dim tr k with
                         | Ok d => Some d
                         | Raise _ => None
                         end
                    else acc !! k.
Proof.
  revert acc. induction names as [|name rest IH]; intros acc Hall.
  { exists acc. split; [done|]. intros k. by rewrite decide_False by set_solver. }
  destruct (Hall name) as [d Hd]; [set_solver|].
  destruct (IH (<[name := d]> acc)) as (m & Hm & Hlook).
  { intros k Hk. apply Hall. set_solver. }
  exists m. split; [simpl; by rewrite Hd|].
  intros k. rewrite Hlook. destruct (decide (k ∈ rest)) as [Hin|Hnin].
  - by rewrite decide_True by set_solver.
  - destruct (decide (k = name)) as [->|Hne].
    + by rewrite decide_True, lookup_insert_eq, Hd by set_solver.
    + by rewrite decide_False, lookup_insert_ne by set_solver.
Qed.

Lemma get_dims_inv tr names (acc m : gmap string Z) :
  get_dims tr names acc = Ok m →
  ∀ name, name ∈ names → ∃ d, transition_get_dim tr name = Ok d.
Proof.
  revert acc. induction names as [|name rest IH]; intros acc Hget k Hk.
  { by apply elem_of_nil in Hk. }
  simpl in Hget. destruct (transition_get_dim tr name) as [d|] eqn:Hd; [|done].
  simpl in Hget. apply elem_of_cons in Hk as [->|Hk]; [by exists d|].
  by eapply IH.
Qed.

(** The allocation configuration can be pushed exactly when the wrapped
    cell knows the dimension of every injected port and of its state; the
    fork is then told [num_params] as its input dimension and the cell's
    dimension of each injected port as the dimension of that output. *)
Theorem push_allocation_config_fork_dims tr n pname self :
  AddParameters_init tr n pname = Ok self →
  ((∃ self', push_allocation_config self = Ok self')
   ↔ (∀ name, name ∈ input_names self →
        ∃ d, transition_get_dim tr name = Ok d)
     ∧ ∃ d, transition_get_dim tr (state_name self) = Ok d)
  ∧ ∀ self', push_allocation_config self = Ok self' →
      input_dim (fork self') = Some n
      ∧ fork_names (fork self') = input_names self
      ∧ ∀ name d, fork_dims (fork self') !! name = Some d
          ↔ name ∈ input_names self ∧ transition_get_dim tr name = Ok d.
Proof.
  intros Hinit.
  destruct (AddParameters_init_Ok _ _ _ _ Hinit)
    as (Htr & Hn & _ & _ & _ & Hfork & Hmlp).
  unfold push_allocation_config. rewrite Hmlp, Htr, Hn, Hfork. simpl.
  split; [split|].
  - intros [self' Hpush].
    destruct (get_dims tr (input_names self) ∅) as [m|] eqn:Hget; [|done].
    simpl in Hpush. split; [by eapply get_dims_inv|].
    destruct (transition_get_dim tr (state_name self)) as [d|]; [|done].
    by exists d.
  - intros [Hall [d Hd]].
    destruct (get_dims_Ok tr (input_names self) ∅ Hall) as (m & -> & _).
    simpl. rewrite Hd. simpl. by eexists.
  - intros self' Hpush.
    destruct (get_dims tr (input_names self) ∅) as [m|] eqn:Hget; [|done].
    simpl in Hpush.
    destruct (transition_get_dim tr (state_name self)) as [ds|]; [|done].
    simpl in Hpush. injection Hpush as <-. simpl.
    split; [done|]. split; [done|].
    pose proof (get_dims_inv _ _ _ _ Hget) as Hall.
    destruct (get_dims_Ok tr (input_names self) ∅ Hall) as (m' & Hm' & Hlook).
    rewrite Hget in Hm'. injection Hm' as <-.
    intros name d. rewrite Hlook. case_decide as Hin.
    + destruct (Hall name Hin) as [d' Hd']. rewrite Hd'. naive_solver.
    + rewrite lookup_empty. naive_solver.
Qed.

(** Pushing the allocation configuration changes neither what [apply]
    hands to the wrapped cell nor the initial state. *)
Theorem push_allocation_config_keeps_apply self self' lp :
  push_allocation_config self = Ok self' →
  (∀ kw, apply_kwargs self' lp kw = apply_kwargs self lp kw)
  ∧ (∀ kw, AddParameters_apply self' lp kw = AddParameters_apply self lp kw)
  ∧ (∀ bs kws, initial_state self' lp bs kws = initial_state self lp bs kws).
Proof.
  unfold push_allocation_config. intros Hpush.
  destruct (get_dims _ _ _) as [m|]; [|done]. simpl in Hpush.
  destruct (list_setitem _ _ _) as [d0|]; [|done]. simpl in Hpush.
  destruct (transition_get_dim _ _) as [ds|]; [|done]. simpl in Hpush.
  destruct (list_setitem _ _ _) as [d1|]; [|done]. simpl in Hpush.
  injection Hpush as <-.
  assert (∀ kw, apply_kwargs
            {| self_transition := self_transition self;
               num_params := num_params self;
               params_name := params_name self;
               input_names := input_names self;
               state_name := state_name self;
               fork := {| fork_names := fork_names (fork self);
                          input_dim := Some (num_params self);
                          fork_dims := m |};
               init := {| activations := activations (init self);
                          dims := d1 |} |} lp kw
          = apply_kwargs self lp kw) as Happ by done.
  split; [done|]. split; [|done].
  intros kw. unfold AddParameters_apply. by rewrite Happ.
Qed.

Lemma list_setitem_first {A} (x a : A) (l : list A) :
  list_setitem (x :: l) 0 a = Ok (a :: l).
Proof.
  unfold list_setitem, list_index. simpl length.
  destruct (decide (0 < 0)%Z); [lia|].
  destruct (decide (0 ≤ 0 < Z.of_nat (S (length l)))%Z); [done|lia].
Qed.

Lemma list_setitem_last {A} (x b : A) (l : list A) :
  list_setitem (x :: l) (-1) b = Ok (<[length l := b]> (x :: l)).
Proof.
  unfold list_setitem, list_index. simpl length.
  destruct (decide (-1 < 0)%Z); [|lia].
  destruct (decide (0 ≤ -1 + Z.of_nat (S (length l))
                    < Z.of_nat (S (length l)))%Z); [|lia].
  cbn [mbind result_bind]. do 2 f_equal. lia.
Qed.

Lemma list_setitem_nil {A} (i : Z) (a : A) :
  list_setitem [] i a = Raise IndexError.
Proof.
  unfold list_setitem, list_index. simpl length.
  destruct (decide (i < 0)%Z).
  - destruct (decide (0 ≤ i + Z.of_nat 0 < Z.of_nat 0)%Z); [lia|done].
  - destruct (decide (0 ≤ i < Z.of_nat 0)%Z); [lia|done].
Qed.

Lemma setitem_first_last_idempotent {A} (a b : A) (l l0 l1 : list A) :
  list_setitem l 0 a = Ok l0 →
  list_setitem l0 (-1) b = Ok l1 →
  ∃ l0', list_setitem l1 0 a = Ok l0' ∧ list_setitem l0' (-1) b = Ok l1.
Proof.
  destruct l as [|x l]; [by rewrite list_setitem_nil|].
  rewrite list_setitem_first. intros [= <-].
  rewrite list_setitem_last. intros [= <-].
  destruct l as [|y l].
  - cbn [length list_insert insert]. exists [a].
    by rewrite list_setitem_first, list_setitem_last.
  - exists (a :: <[length l := b]> (y :: l)).
    change (<[length (y :: l) := b]> (a :: y :: l))
      with (a :: <[length l := b]> (y :: l)).
    rewrite list_setitem_first, list_setitem_last. split; [done|].
    f_equal. rewrite length_insert.
    change (<[length (y :: l) := b]> (a :: <[length l := b]> (y :: l)))
      with (a :: <[length l := b]> (<[length l := b]> (y :: l))).
    by rewrite list_insert_insert_eq.
Qed.

(** Pushing the allocation configuration a second time changes nothing. *)
Theorem push_allocation_config_idempotent self self' :
  push_allocation_config self = Ok self' →
  push_allocation_config self' = Ok self'.
Proof.
  unfold push_allocation_config. intros Hpush.
  destruct (get_dims _ _ _) as [m|] eqn:Hget; [|done]. simpl in Hpush.
  destruct (list_setitem (dims (init self)) 0 _) as [d0|] eqn:H0; [|done].
  simpl in Hpush.
  destruct (transition_get_dim _ _) as [ds|] eqn:Hds; [|done]. simpl in Hpush.
  destruct (list_setitem d0 (-1) _) as [d1|] eqn:H1; [|done]. simpl in Hpush.
  injection Hpush as <-. simpl. rewrite Hget. simpl.
  destruct (setitem_first_last_idempotent _ _ _ _ _ H0 H1)
    as (d0' & -> & H1').
  simpl. rewrite Hds. simpl. by rewrite H1'.
Qed.

(** [get_dim] and [apply] go by the literal name ["params"], whatever
    [params_name] the injector declares among its contexts: under another
    name, [get_dim] of the declared context is answered by the wrapped
    cell, and a call that passes the context under that name only raises
    [KeyError("params")]. *)
Theorem params_name_is_not_consulted tr n pname self lp kw :
  AddParameters_init tr n pname = Ok self →
  pname ≠ "params" →
  NoDup (input_names self) →
  (∀ name, name ∈ input_names self → is_Some (ports kw !! name)) →
  ports kw !! "params" = None →
  pname ∈ AddParameters_apply_contexts self
  ∧ get_dim self pname = transition_get_dim tr pname
  ∧ AddParameters_apply self lp kw = Raise (KeyError "params").
Proof.
  intros Hinit Hne Hnd Hall Hnone.
  destruct (AddParameters_init_Ok _ _ _ _ Hinit) as (Htr & _ & Hp & _).
  split; [|split].
  - unfold AddParameters_apply_contexts. rewrite Hp. set_solver.
  - unfold get_dim. by rewrite decide_False, Htr.
  - unfold AddParameters_apply, apply_kwargs.
    destruct (pop_each_Ok (input_names self) ∅ (ports kw) Hnd Hall)
      as (ins & kw1 & -> & _ & Hkw1). simpl.
    unfold dict_pop. rewrite Hkw1, Hnone. by case_decide.
Qed.
(** The fork has one output for every sequence of the wrapped cell except
    ["mask"], and no other. *)
Theorem fork_outputs_are_injected_ports tr n pname self lp (t : tensor R) name :
  AddParameters_init tr n pname = Ok self →
  is_Some (Fork_apply (fork self) (fork_layer lp) t !! name)
  ↔ name ∈ apply_sequences tr ∧ name ≠ "mask".
Proof.
  intros Hinit. rewrite Fork_apply_lookup.
  destruct (AddParameters_init_Ok _ _ _ _ Hinit) as (_&_&_&_&_& -> &_).
  simpl. rewrite <-(input_names_spec tr n pname self name Hinit).
  case_decide; split; done.
Qed.
End injector_more.

(** ** Pushing the initialization schemes *)

Section initialization_facts.
Context {scheme : Type}.
Implicit Types (self child : init_config scheme)
  (children : list (init_config scheme)).

(** A scheme set on the injector replaces that of every child, the wrapped
    transition included; an unset one leaves the children's schemes as
    they are; pushing twice is the same as pushing once. *)
Theorem push_initialization_config_overrides self children :
  length (push_initialization_config self children) = length children
  ∧ (∀ w, weights_init self = Some w →
       Forall (λ child, weights_init child = Some w)
              (push_initialization_config self children))
  ∧ (weights_init self = None →
       weights_init <$> push_initialization_config self children
       = weights_init <$> children)
  ∧ (∀ b, biases_init self = Some b →
       Forall (λ child, biases_init child = Some b)
              (push_initialization_config self children))
  ∧ (biases_init self = None →
       biases_init <$> push_initialization_config self children
       = biases_init <$> children)
  ∧ push_initialization_config self
      (push_initialization_config self children)
    = push_initialization_config self children.
Proof.
  unfold push_initialization_config. repeat split.
  - by rewrite length_fmap.
  - intros w Hw. apply Forall_fmap, Forall_forall. intros child _. simpl.
    by rewrite Hw.
  - intros Hw. rewrite <-list_fmap_compose. apply list_fmap_ext.
    intros _ child _. simpl. by rewrite Hw.
  - intros b Hb. apply Forall_fmap, Forall_forall. intros child _. simpl.
    by rewrite Hb.
  - intros Hb. rewrite <-list_fmap_compose. apply list_fmap_ext.
    intros _ child _. simpl. by rewrite Hb.
  - rewrite <-list_fmap_compose. apply list_fmap_ext.
    intros _ child _. simpl.
    by destruct (weights_init self), (biases_init self).
Qed.
End initialization_facts.

(** ** More on the emitter *)

Section tensor_shapes.
Context {R : Type} `{Scalar R}.

Lemma tensor_nested_ind (P : tensor R → Prop) :
  (∀ r, P (Sc r)) → (∀ l, Forall P l → P (Arr l)) → ∀ t, P t.
Proof.
  intros HSc HArr. fix IH 1. intros [r|l]; [apply HSc|].
  apply HArr. induction l as [|x l IHl]; constructor; [apply IH|apply IHl].
Qed.

Lemma has_shape_1_inv n (t : tensor R) :
  has_shape [n] t → ∃ v, t = of_vec v ∧ length v = n.
Proof.
  destruct t as [r|l]; [done|]. intros [Hlen Hall].
  assert (∃ v, l = Sc <$> v) as [v ->].
  { clear Hlen. induction Hall as [|x l Hx Hall [v ->]]; [by exists []|].
    destruct x as [r|?]; [|done]. by exists (r :: v). }
  exists v. split; [done|]. by rewrite length_fmap in Hlen.
Qed.

Lemma has_shape_2_inv n k (t : tensor R) :
  has_shape [n; k] t →
  ∃ m, t = of_mat m ∧ length m = n ∧ Forall (λ v, length v = k) m.
Proof.
  destruct t as [r|l]; [done|]. intros [Hlen Hall].
  assert (∃ m, l = of_vec <$> m ∧ Forall (λ v, length v = k) m)
    as (m & -> & Hm).
  { clear Hlen. induction Hall as [|x l Hx Hall (m & -> & Hm)].
    - by exists [].
    - apply has_shape_1_inv in Hx as (v & -> & Hv).
      exists (v :: m). split; [done|by constructor]. }
  exists m. split; [done|]. split; [|done]. by rewrite length_fmap in Hlen.
Qed.

Lemma has_shape_3_inv n k j (t : tensor R) :
  has_shape [n; k; j] t →
  ∃ x, t = of_tensor3 x ∧ length x = n
    ∧ Forall (λ m, length m = k ∧ Forall (λ v, length v = j) m) x.
Proof.
  destruct t as [r|l]; [done|]. intros [Hlen Hall].
  assert (∃ x, l = of_mat <$> x
               ∧ Forall (λ m, length m = k ∧ Forall (λ v, length v = j) m) x)
    as (x & -> & Hx).
  { clear Hlen. induction Hall as [|y l Hy Hall (x & -> & Hx)].
    - by exists [].
    - apply has_shape_2_inv in Hy as (m & -> & Hm).
      exists (m :: x). split; [done|by constructor]. }
  exists x. split; [done|]. split; [|done]. by rewrite length_fmap in Hlen.
Qed.

Lemma Emitter_cost_of_tensor3 (r o : list (list (list R))) :
  ndim (of_tensor3 r) = 3 →
  ndim (of_tensor3 o) = 3 →
  Emitter_cost (of_tensor3 r) (of_tensor3 o)
  = of_mat (zip_with (zip_with row_cost) r o).
Proof.
  intros Hr Ho. unfold Emitter_cost, tsub, tsqr.
  rewrite tbroadcast_same_rank by congruence. rewrite Hr. simpl Nat.sub.
  rewrite tzip_of_tensor3, tmap_of_tensor3, sum_axis_2_of_tensor3. f_equal.
  rewrite !fmap_zip_with_3. apply zip_with_ext; [|done..].
  intros rm om.
  change (map rsum (map (map (λ x, rmul x x)) (zip_with (zip_with rsub) rm om)))
    with (rsum <$> (fmap (λ x, rmul x x) <$> (zip_with (zip_with rsub) rm om))).
  rewrite !fmap_zip_with_3. apply zip_with_ext; [|done..].
  intros rv ov. unfold row_cost. by rewrite fmap_zip_with_3.
Qed.

Lemma ndim_of_tensor3_shape (x : list (list (list R))) k :
  0 < length x → 0 < k → Forall (λ m, length m = k) x →
  ndim (of_tensor3 x) = 3.
Proof.
  intros Hx Hk Hall. apply ndim_of_tensor3.
  destruct x as [|m x]; [simpl in Hx; lia|].
  exists m, x. split; [done|]. apply Forall_cons in Hall as [Hm _].
  intros ->. simpl in Hm. lia.
Qed.

(** The emitter's cost drops the last axis and keeps the others: for a
    readout and a target of shape (T, B, F) the cost has shape (T, B). *)
Theorem Emitter_cost_shape (T B F : nat) (readouts outputs : tensor R) :
  0 < T → 0 < B →
  has_shape [T; B; F] readouts →
  has_shape [T; B; F] outputs →
  has_shape [T; B] (Emitter_cost readouts outputs).
Proof.
  intros HT HB (r & -> & Hr & Hrs)%has_shape_3_inv
    (o & -> & Ho & Hos)%has_shape_3_inv.
  rewrite Emitter_cost_of_tensor3.
  - apply has_shape_of_mat.
    + rewrite length_zip_with. lia.
    + apply Forall_forall. intros row Hrow.
      apply list_elem_of_lookup in Hrow as [i Hi].
      rewrite lookup_zip_with in Hi.
      destruct (r !! i) as [rm|] eqn:Hrm; [|done].
      destruct (o !! i) as [om|] eqn:Hom; [|done].
      simpl in Hi. injection Hi as <-.
      rewrite length_zip_with.
      eapply Forall_lookup_1 in Hrs as [? _]; [|done].
      eapply Forall_lookup_1 in Hos as [? _]; [|done]. lia.
  - apply (ndim_of_tensor3_shape r B); [lia|done|].
    eapply Forall_impl; [done|]. by intros ? [? _].
  - apply (ndim_of_tensor3_shape o B); [lia|done|].
    eapply Forall_impl; [done|]. by intros ? [? _].
Qed.

Lemma zip_with_diag {A B} (f : A → A → B) (l : list A) :
  zip_with f l l = (λ x, f x x) <$> l.
Proof. induction l as [|x l IH]; [done|]. csimpl. by rewrite IH. Qed.

Lemma zip_with_flip {A B C} (f : A → B → C) (l : list A) (k : list B) :
  zip_with f l k = zip_with (λ y x, f x y) k l.
Proof.
  revert k. induction l as [|x l IH]; intros [|y k]; csimpl; [done..|].
  by rewrite IH.
Qed.

Lemma rsum_zeros (l : list R) :
  radd rzero rzero = rzero →
  Forall (λ x, x = rzero) l → rsum l = rzero.
Proof.
  intros Hadd Hl. destruct Hl as [|x l -> Hl]; [done|]. simpl.
  induction Hl as [|y l -> Hl IH]; [done|]. simpl. by rewrite Hadd.
Qed.

(** A readout that equals its target costs nothing, step by step and in
    total, as soon as [x - x = 0], [0 * 0 = 0] and [0 + 0 = 0]. *)
Theorem Emitter_cost_of_target (r : list (list (list R))) :
  (∀ x : R, rsub x x = rzero) →
  rmul rzero rzero = rzero →
  radd rzero rzero = rzero →
  ndim (of_tensor3 r) = 3 →
  Emitter_cost (of_tensor3 r) (of_tensor3 r)
  = of_mat (map (λ _, rzero) <$> r)
  ∧ total_cost (Emitter_cost (of_tensor3 r) (of_tensor3 r)) = rzero.
Proof.
  intros Hsub Hmul Hadd Hr.
  assert (∀ v : list R, row_cost v v = rzero) as Hrow.
  { intros v. unfold row_cost. rewrite zip_with_diag.
    apply rsum_zeros; [done|]. apply Forall_fmap, Forall_forall.
    intros x _. simpl. unfold sqdiff. by rewrite Hsub. }
  assert (Emitter_cost (of_tensor3 r) (of_tensor3 r)
          = of_mat (map (λ _, rzero) <$> r)) as Hcost.
  { rewrite Emitter_cost_of_tensor3 by done. f_equal.
    rewrite zip_with_diag. apply list_fmap_ext. intros _ m _.
    rewrite zip_with_diag. apply list_fmap_ext. by intros. }
  split; [done|].
  unfold total_cost, tsum. rewrite Hcost, elements_of_mat.
  apply rsum_zeros; [done|]. apply Forall_concat, Forall_fmap, Forall_forall.
  intros m _. simpl. apply Forall_fmap, Forall_forall. by intros.
Qed.

(** The cost does not change when readout and target are exchanged, as
    soon as the squared difference of two scalars does not. *)
Theorem Emitter_cost_symmetric (r o : list (list (list R))) :
  (∀ a b : R, sqdiff a b = sqdiff b a) →
  ndim (of_tensor3 r) = 3 →
  ndim (of_tensor3 o) = 3 →
  Emitter_cost (of_tensor3 r) (of_tensor3 o)
  = Emitter_cost (of_tensor3 o) (of_tensor3 r).
Proof.
  intros Hsym Hr Ho. rewrite !Emitter_cost_of_tensor3 by done. f_equal.
  rewrite (zip_with_flip _ r o). apply zip_with_ext; [|done..].
  intros om rm. rewrite (zip_with_flip _ rm om).
  apply zip_with_ext; [|done..].
  intros ov rv. unfold row_cost. f_equal.
  rewrite (zip_with_flip _ rv ov). apply zip_with_ext; [|done..].
  intros a b. apply Hsym.
Qed.
End tensor_shapes.

(** ** More on [SeriesIterator] *)

Section series_more.
Context {R : Type} `{Scalar R}.
Context {rng : Type} (random_sample : rng → R * rng).
Context (of_int : Z → R) (astype_floatX : R → R).
Implicit Types (self : SeriesIterator R) (g : rng).

Lemma assign_row_length n (v : tensor R) row :
  assign_row n v = Ok row → length row = n.
Proof.
  revert row. induction v as [r|l IH] using tensor_nested_ind; intros row.
  { simpl. intros [= <-]. by rewrite length_replicate. }
  simpl. destruct (as_vec l) as [xs|].
  - case_decide as Hlen; [by intros [= <-]|].
    destruct xs as [|r [|??]]; try done.
    intros [= <-]. by rewrite length_replicate.
  - destruct l as [|t [|??]]; try done.
    apply Forall_cons in IH as [IH _]. apply IH.
Qed.

Lemma next_rows_shape self params steps rows :
  next_rows of_int self params steps = Ok rows →
  length rows = length steps
  ∧ Forall (λ row, length row = Z.to_nat (batch_size self)) rows.
Proof.
  revert rows. induction steps as [|i steps IH]; intros rows; simpl.
  { intros [= <-]. by split. }
  destruct (call _ _) as [v|]; [|done]. simpl.
  destruct (assign_row _ v) as [row|] eqn:Hrow; [|done]. simpl.
  destruct (next_rows _ _ _ _) as [rows'|]; [|done]. simpl.
  intros [= <-]. destruct (IH rows' eq_refl) as [Hlen Hall].
  split; [simpl; by rewrite Hlen|].
  constructor; [by eapply assign_row_length|done].
Qed.

(** Every batch that [next] returns has an [x] of shape
    (seq_len, batch_size, 1). *)
Theorem next_x_shape self g b g' :
  next random_sample of_int astype_floatX self g = Ok (b, g') →
  has_shape [Z.to_nat (seq_len self); Z.to_nat (batch_size self); 1]
            (batch_x b).
Proof.
  unfold next. intros Hnext.
  destruct (rng_uniform _ _ _ _) as [[drawn g1]|]; [|done]. simpl in Hnext.
  destruct (decide (0 ≤ seq_len self)%Z); [|done]. simpl in Hnext.
  destruct (next_rows _ _ _ _) as [rows|] eqn:Hrows; [|done]. simpl in Hnext.
  injection Hnext as <- <-. simpl.
  apply next_rows_shape in Hrows as [Hlen Hall].
  rewrite length_seq in Hlen.
  split; [by rewrite length_fmap|].
  apply Forall_fmap. eapply Forall_impl; [exact Hall|].
  intros row Hrow. simpl. split; [by rewrite length_fmap|].
  apply Forall_fmap, Forall_forall. intros r _. simpl.
  split; [done|]. by repeat constructor.
Qed.

(** A negative batch size, a function without arguments (so that
    [num_params] is -1) and a negative sequence length make [next] raise
    [ValueError]. *)
Theorem next_negative_size_raises self g :
  (batch_size self < 0 ∨ series_num_params self < 0 ∨ seq_len self < 0)%Z →
  next random_sample of_int astype_floatX self g = Raise ValueError.
Proof.
  intros Hneg. unfold next, rng_uniform.
  destruct (decide (0 ≤ batch_size self ∧ 0 ≤ series_num_params self)%Z);
    [|done].
  simpl. destruct (draw_mat _ _ _ _) as [drawn g1]. simpl.
  destruct (decide (0 ≤ seq_len self)%Z); [lia|done].
Qed.

(** With a sequence length of zero [next] does not call the function: it
    returns an empty [x] together with the parameters it drew. *)
Theorem next_zero_length self g :
  seq_len self = 0%Z →
  (0 ≤ batch_size self)%Z →
  (0 ≤ series_num_params self)%Z →
  ∃ drawn g',
    next random_sample of_int astype_floatX self g
    = Ok ({| batch_x := Arr [];
             batch_params := of_mat (map (map astype_floatX) drawn) |}, g')
    ∧ length drawn = Z.to_nat (batch_size self)
    ∧ Forall (λ row, length row = Z.to_nat (series_num_params self)) drawn.
Proof.
  intros Hlen Hbs Hnp. unfold next, rng_uniform.
  destruct (decide (0 ≤ batch_size self ∧ 0 ≤ series_num_params self)%Z);
    [|lia].
  simpl.
  pose proof (draw_mat_shape random_sample (Z.to_nat (batch_size self))
                (Z.to_nat (series_num_params self)) g) as [Hrows Hcols].
  destruct (draw_mat _ _ _ _) as [drawn g1]. simpl in *.
  rewrite Hlen. simpl. exists drawn, g1. by split.
Qed.

Lemma draw_vec_state n g :
  (draw_vec random_sample n g).2 = Nat.iter n (λ g, (random_sample g).2) g.
Proof.
  revert g. induction n as [|n IH]; intros g; [done|].
  rewrite Nat.iter_succ_r. simpl.
  destruct (random_sample g) as [r g1] eqn:Hg. specialize (IH g1).
  destruct (draw_vec random_sample n g1) as [rs g2]. simpl in *. done.
Qed.

Lemma draw_mat_state rows cols g :
  (draw_mat random_sample rows cols g).2
  = Nat.iter (rows * cols) (λ g, (random_sample g).2) g.
Proof.
  revert g. induction rows as [|rows IH]; intros g; [done|].
  simpl. pose proof (draw_vec_state cols g) as Hv.
  destruct (draw_vec random_sample cols g) as [v g1]. specialize (IH g1).
  destruct (draw_mat random_sample rows cols g1) as [vs g2]. simpl in *.
  rewrite IH, Hv, Nat.add_comm. by rewrite Nat.iter_add.
Qed.

(** Whatever the function and the sequence length are, a call of [next]
    that returns has advanced the random source by exactly
    batch_size * num_params draws. *)
Theorem next_draws self g b g' :
  next random_sample of_int astype_floatX self g = Ok (b, g') →
  g' = Nat.iter (Z.to_nat (batch_size self)
                 * Z.to_nat (series_num_params self))
                (λ g, (random_sample g).2) g.
Proof.
  unfold next, rng_uniform. intros Hnext.
  destruct (decide (0 ≤ batch_size self ∧ 0 ≤ series_num_params self)%Z);
    [|done].
  simpl in Hnext.
  pose proof (draw_mat_state (Z.to_nat (batch_size self))
                (Z.to_nat (series_num_params self)) g) as Hstate.
  destruct (draw_mat _ _ _ _) as [drawn g1]. simpl in *.
  destruct (decide (0 ≤ seq_len self)%Z); [|done]. simpl in Hnext.
  destruct (next_rows _ _ _ _) as [rows|]; [|done]. simpl in Hnext.
  by injection Hnext as <- <-.
Qed.
End series_more.

(** ** The plot mode of [main] *)

Section plot_facts.
Context {R : Type} `{Scalar R}.
Context (of_int : Z → R).

Lemma plot_desired_steps_spec (function : pyfunc R) pv steps vs :
  plot_desired_steps of_int function pv steps = Ok vs →
  length vs = length steps
  ∧ ∀ i T v, steps !! i = Some T → vs !! i = Some v →
      plot_call of_int function pv T = Ok v.
Proof.
  revert vs. induction steps as [|T steps IH]; intros vs; simpl.
  { intros [= <-]. split; [done|]. by intros. }
  destruct (plot_call _ _ _ _) as [v|] eqn:Hv; [|done]. simpl.
  destruct (plot_desired_steps _ _ _ _) as [vs'|]; [|done]. simpl.
  intros [= <-]. destruct (IH vs' eq_refl) as [Hlen Hall].
  split; [simpl; by rewrite Hlen|].
  intros [|i] T' v'; simpl.
  - by intros [= <-] [= <-].
  - apply Hall.
Qed.

(** In the plot mode the desired series has one value per step, and the
    value at step T is the function applied to the parameters, spread over
    its leading arguments, with T as the last argument. *)
Theorem plot_desired_values (function : pyfunc R) pv (steps : Z) vs :
  plot_desired of_int function pv steps = Ok vs →
  length vs = Z.to_nat steps
  ∧ ∀ T v, vs !! T = Some v → plot_call of_int function pv T = Ok v.
Proof.
  unfold plot_desired. intros Hvs.
  apply plot_desired_steps_spec in Hvs as [Hlen Hall].
  rewrite length_seq in Hlen. split; [done|].
  intros T v Hv. apply (Hall T T v); [|done].
  apply lookup_seq. split; [done|]. apply lookup_lt_Some in Hv. lia.
Qed.

(** In the plot mode a function is called with one argument per given
    parameter and one for the time: with any other number of named
    arguments (and neither defaults nor varargs) the first call raises
    [TypeError]. *)
Theorem plot_desired_wrong_arity (function : pyfunc R) pv (steps : Z) :
  argspec_defaults function = 0 →
  argspec_varargs function = false →
  length (argspec_args function) ≠ S (length pv) →
  (0 < steps)%Z →
  plot_desired of_int function pv steps = Raise TypeError.
Proof.
  intros Hdef Hvar Hargs Hsteps. unfold plot_desired.
  destruct (Z.to_nat steps) as [|k] eqn:Hk; [lia|]. simpl.
  unfold plot_call, call.
  rewrite length_app, length_fmap, Hdef, Hvar, Nat.sub_0_r, orb_false_r.
  simpl length.
  destruct (bool_decide _ && bool_decide _) eqn:Hb; [|done].
  apply andb_true_iff in Hb as [?%bool_decide_eq_true ?%bool_decide_eq_true].
  lia.
Qed.

(** The error printed in the plot mode is the sum of the squared
    differences of the two series, and it is zero for a generated series
    that equals the desired one, as soon as [x - x = 0], [0 * 0 = 0] and
    [0 + 0 = 0]. *)
Theorem plot_mse_sum_of_squares (actual desired : list R) :
  (∀ x : R, rsub x x = rzero) →
  rmul rzero rzero = rzero →
  radd rzero rzero = rzero →
  plot_mse (of_vec actual) (Sc <$> desired)
  = rsum (zip_with sqdiff actual desired)
  ∧ plot_mse (of_vec desired) (Sc <$> desired) = rzero.
Proof.
  intros Hsub Hmul Hadd.
  assert (∀ a d : list R, plot_mse (of_vec a) (Sc <$> d)
                          = rsum (zip_with sqdiff a d)) as Hmse.
  { intros a d. unfold plot_mse, tsum, tsqr, tsub.
    change (Arr (Sc <$> d)) with (of_vec d).
    rewrite tbroadcast_same_rank by by rewrite !ndim_of_vec.
    rewrite tzip_of_vec, tmap_of_vec, elements_of_vec.
    by rewrite fmap_zip_with_3. }
  split; [apply Hmse|]. rewrite Hmse, zip_with_diag.
  apply rsum_zeros; [done|]. apply Forall_fmap, Forall_forall.
  intros x _. simpl. unfold sqdiff. by rewrite Hsub.
Qed.
End plot_facts.

(** * Examples *)

Section emitter_examples.
Local Open Scope Z_scope.

(** The claim of C3 as stated fails: the feature axis is summed by the
  emitter itself. *)
Lemma Emitter_cost_not_per_element :
Emitter_cost (of_tensor3 [[[1; 2]]]) (of_tensor3 [[[0; 0]]])
= of_mat [[5]]
∧ Emitter_cost (of_tensor3 [[[1; 2]]]) (of_tensor3 [[[0; 0]]])
  ≠ squared_error (of_tensor3 [[[1; 2]]]) (of_tensor3 [[[0; 0]]]).
Proof. split; [reflexivity|discriminate]. Qed.

(** The emitter's cost of one step with two sequences of two features. *)
Lemma Emitter_cost_sums_feature_axis_witness :
ndim (of_tensor3 [[[1; 2]; [3; 4]]]) = 3%nat
∧ ndim (of_tensor3 [[[0; 0]; [1; 1]]]) = 3%nat
∧ Emitter_cost (of_tensor3 [[[1; 2]; [3; 4]]]) (of_tensor3 [[[0; 0]; [1; 1]]])
= of_mat [[5; 13]]
∧ total_cost (Emitter_cost (of_tensor3 [[[1; 2]; [3; 4]]])
                           (of_tensor3 [[[0; 0]; [1; 1]]])) = 18.
Proof.
split; [reflexivity|]. split; [reflexivity|].
exact (Emitter_cost_sums_feature_axis
         [[[1; 2]; [3; 4]]] [[[0; 0]; [1; 1]]] eq_refl eq_refl).
Defined.
End emitter_examples.

Section series_examples.
Local Open Scope Z_scope.

(** C7, where the code departs from it: for a function of two parameters
    and the time, the family is well defined, but [next] raises
    [TypeError] instead of returning a batch. *)
Theorem next_two_parameters_raises :
  family_value id example_line [2; 3] 4 = Ok (Sc 11)
  ∧ next example_sample id id (SeriesIterator_init example_line 5 1) 1
    = Raise TypeError.
Proof. split; reflexivity. Qed.
End series_examples.

Section graph_examples.
Local Open Scope Z_scope.

(** The claim of C2 as stated fails: with noise of level one, a gradient
    that does not depend on the inputs carries no noise at all, and the
    cost itself, which is no gradient component, is perturbed. *)
Lemma noise_is_not_added_to_gradients :
  gradient "w" (train_cost example_penalty 1) example_env
  ≠ spec_noisy_gradient "w" example_penalty 1 example_env
  ∧ eval example_env (train_cost example_cost 1) ≠ eval example_env example_cost.
Proof. split; discriminate. Qed.

(** The squared-error cost under noise of level one and of level zero. *)
Lemma input_noise_perturbs_graph_inputs_witness :
  (∀ x : Z, radd x rzero = x)
  ∧ (∀ y : Z, rmul rzero y = rzero)
  ∧ eval example_env (train_cost example_cost 1) = 1
  ∧ gradient "w" (train_cost example_cost 1) example_env = -2
  ∧ eval example_env (train_cost example_cost 0) = 0
  ∧ gradient "w" (train_cost example_cost 0) example_env = 0.
Proof.
  split; [exact Z.add_0_r|]. split; [exact Z.mul_0_l|].
  exact (input_noise_perturbs_graph_inputs example_cost 1 example_env "w"
           Z.add_0_r Z.mul_0_l).
Defined.
End graph_examples.

Section examples.
Local Open Scope Z_scope.

Lemma example_cell_valid : valid_cell example_cell.
Proof.
  unfold valid_cell. simpl. repeat split.
  - repeat constructor; set_solver.
  - set_solver.
  - set_solver.
  - set_solver.
  - set_solver.
Qed.

Lemma example_kwargs_supplied :
  supplied example_injector example_kwargs (of_mat [[3]]).
Proof.
  split; [|reflexivity].
  intros name ->%list_elem_of_singleton. by eexists.
Qed.

(** One step of the example injector: the input port receives the fork of
    the parameters, the mask is untouched. *)
Lemma apply_adds_fork_of_params_witness :
  valid_cell example_cell
  ∧ AddParameters_init example_cell 1 "params" = Ok example_injector
  ∧ supplied example_injector example_kwargs (of_mat [[3]])
  ∧ ∃ kw', apply_kwargs example_injector example_learned example_kwargs
           = Ok kw'
      ∧ AddParameters_apply example_injector example_learned example_kwargs
        = transition_apply example_cell kw'
      ∧ (∀ name v, name ∈ apply_sequences example_cell → name ≠ "mask" →
           ports example_kwargs !! name = Some v →
           ports kw' !! name
           = Some (tadd v (Linear_apply (fork_layer example_learned name)
                                        (of_mat [[3]]))))
      ∧ ports kw' !! "mask" = ports example_kwargs !! "mask".
Proof.
  split; [exact example_cell_valid|]. split; [reflexivity|].
  split; [exact example_kwargs_supplied|].
  exact (apply_adds_fork_of_params example_cell 1 "params" example_injector
           example_learned example_kwargs (of_mat [[3]])
           example_cell_valid eq_refl example_kwargs_supplied).
Defined.


(** The state that the cell of the example receives when [iterate] is not
    given: the affine projection of the parameters, not the supplied
    state. *)
Example apply_example_state :
  (λ kw', ports kw' !! "states")
    <$> apply_kwargs example_injector example_learned example_kwargs
  = Ok (Some (of_mat [[7; 9]])).
Proof. vm_compute. reflexivity. Qed.

Example apply_example_inputs :
  (λ kw', ports kw' !! "inputs")
    <$> apply_kwargs example_injector example_learned example_kwargs
  = Ok (Some (of_mat [[4; 5]])).
Proof. vm_compute. reflexivity. Qed.

(** The dimensions reported by the example injector. *)
Lemma get_dim_params_or_delegate_witness :
  AddParameters_init example_cell 1 "params" = Ok example_injector
  ∧ get_dim example_injector "params" = Ok 1
  ∧ (∀ name, name ≠ "params" →
       get_dim example_injector name = transition_get_dim example_cell name)
  ∧ (∀ self' name, push_allocation_config example_injector = Ok self' →
       get_dim self' name = get_dim example_injector name).
Proof.
  split; [reflexivity|].
  exact (get_dim_params_or_delegate example_cell 1 "params" example_injector
           eq_refl).
Defined.

Lemma example_push :
  push_allocation_config example_injector = Ok example_allocated.
Proof. vm_compute. reflexivity. Qed.

Lemma example_learned_allocated :
  Forall2 allocated (MLP_layer_dims (init example_allocated))
    (init_layers example_learned).
Proof.
  repeat constructor.
Qed.

(** The example injector, allocated with one layer of one input and two
    outputs. *)
Lemma initial_state_affine_witness :
  AddParameters_init example_cell 1 "params" = Ok example_injector
  ∧ push_allocation_config example_injector = Ok example_allocated
  ∧ Forall2 allocated (MLP_layer_dims (init example_allocated))
      (init_layers example_learned)
  ∧ ∃ lin d,
      init_layers example_learned = [lin]
      ∧ transition_get_dim example_cell (state_name example_allocated) = Ok d
      ∧ Z.of_nat (length (weights lin)) = 1
      ∧ Z.of_nat (length (biases lin)) = d
      ∧ (∀ bs (kws : gmap string (tensor Z)) t, kws !! "params" = Some t →
           initial_state example_allocated example_learned bs kws
           = Ok (Linear_apply lin t))
      ∧ (∀ p, Linear_apply lin (of_vec p) = of_vec (affine lin p)
              ∧ Z.of_nat (length (affine lin p)) = d)
      ∧ (∀ m, m ≠ [] →
           Linear_apply lin (of_mat m) = of_mat (affine lin <$> m)).
Proof.
  split; [reflexivity|]. split; [exact example_push|].
  split; [exact example_learned_allocated|].
  exact (initial_state_affine example_cell 1 "params" example_injector
           example_allocated example_learned eq_refl example_push
           example_learned_allocated).
Defined.

Example initial_state_example :
  initial_state example_allocated example_learned None
    {[ "params" := of_mat [[3]; [4]] ]}
  = Ok (of_mat [[7; 9]; [9; 12]]).
Proof. vm_compute. reflexivity. Qed.

Lemma example_next :
  next example_sample id id (SeriesIterator_init example_ramp 3 2) 1
  = Ok (example_batch, 43).
Proof. reflexivity. Qed.

(** A batch of two sequences for a function of one parameter. *)
Lemma batch_params_shape_is_get_dim_witness :
  next example_sample id id (SeriesIterator_init example_ramp 3 2) 1
    = Ok (example_batch, 43)
  ∧ main_with_params example_cell example_ramp = Ok example_injector
  ∧ series_num_params (SeriesIterator_init example_ramp 3 2)
    = main_num_params example_ramp
  ∧ main_num_params example_ramp
    = Z.of_nat (length (argspec_args example_ramp)) - 1
  ∧ ∃ n : nat, get_dim example_injector "params" = Ok (Z.of_nat n)
      ∧ has_shape [Z.to_nat 2; n] (batch_params example_batch).
Proof.
  split; [exact example_next|]. split; [reflexivity|].
  exact (batch_params_shape_is_get_dim example_sample id id example_ramp 3 2
           1 43 example_batch example_cell example_injector
           example_next eq_refl).
Defined.

#[local] Instance Z_radd_comm : Comm (=) (radd (R:=Z)).
Proof. intros x y. apply Z.add_comm. Qed.

#[local] Instance Z_radd_assoc : Assoc (=) (radd (R:=Z)).
Proof. intros x y z. apply Z.add_assoc. Qed.

Lemma example_readout_batchwise B : batchwise B example_readout.
Proof. intros s i Hs Hi. exists s. by repeat split. Qed.

Lemma example_cell_batchwise (B : nat) :
  (0 < B)%nat → batchwise_cell B (transition_apply example_cell).
Proof.
  intros HB kw it Hkw. simpl. unfold dict_getitem.
  rewrite !lookup_fmap.
  destruct (kw !! "states") as [s|] eqn:Hs; simpl.
  2:{ split; [done|]. intros σ Hσ. by rewrite !lookup_fmap, Hs. }
  destruct (kw !! "inputs") as [i|] eqn:Hi; simpl.
  2:{ split; [done|]. intros σ Hσ. by rewrite !lookup_fmap, Hs, Hi. }
  apply Hkw in Hs as Hls. apply Hkw in Hi as Hli.
  rewrite (tadd_of_mat B HB) by done. split.
  - intros ? [= <-]. eexists. split; [done|].
    rewrite length_zip_with. lia.
  - intros σ Hσ. rewrite !lookup_fmap, Hs, Hi. simpl.
    rewrite (tadd_of_mat B HB)
      by (rewrite gather_length; [done|by rewrite ?Hls, ?Hli]).
    simpl. f_equal. unfold of_mat. f_equal.
    rewrite gather_fmap. f_equal. symmetry. apply gather_zip_with. lia.
Qed.

Lemma example_swap : [1; 0]%nat ≡ₚ seq 0 2.
Proof. apply perm_swap. Qed.

(** The example batch with its two sequences swapped. *)
Lemma scoring_permutes_sequence_costs_witness :
  valid_cell example_cell
  ∧ AddParameters_init example_cell 1 "params" = Ok example_injector
  ∧ (0 < 2)%nat
  ∧ batchwise 2 example_readout
  ∧ batchwise_cell 2 (transition_apply example_cell)
  ∧ [1; 0]%nat ≡ₚ seq 0 2
  ∧ Forall (λ x, length x = 2%nat) example_targets
  ∧ length example_params = 2%nat
  ∧ scoring_costs example_injector example_learned example_readout
      (of_mat <$> (gather [1; 0]%nat <$> example_targets))
      (of_mat (gather [1; 0]%nat example_params))
    = map (tgather [1; 0]%nat)
        <$> scoring_costs example_injector example_learned example_readout
              (of_mat <$> example_targets) (of_mat example_params)
  ∧ ∀ costs,
      scoring_costs example_injector example_learned example_readout
        (of_mat <$> example_targets) (of_mat example_params) = Ok costs →
      per_sequence_costs (map (tgather [1; 0]%nat) costs)
        = tgather [1; 0]%nat (per_sequence_costs costs)
      ∧ elements (Arr (map (tgather [1; 0]%nat) costs))
        ≡ₚ elements (Arr costs)
      ∧ (Comm (=) (radd (R:=Z)) → Assoc (=) (radd (R:=Z)) →
         total_cost (Arr (map (tgather [1; 0]%nat) costs))
         = total_cost (Arr costs)).
Proof.
  assert (0 < 2)%nat as HB by lia.
  assert (Forall (λ x : list (list Z), length x = 2%nat) example_targets)
    as Ht by (repeat constructor).
  split; [exact example_cell_valid|]. split; [reflexivity|].
  split; [exact HB|]. split; [exact (example_readout_batchwise 2)|].
  split; [exact (example_cell_batchwise 2 HB)|].
  split; [exact example_swap|]. split; [exact Ht|]. split; [reflexivity|].
  exact (scoring_permutes_sequence_costs example_cell 1 "params"
           example_injector example_learned example_readout 2
           example_cell_valid eq_refl HB (example_readout_batchwise 2)
           (example_cell_batchwise 2 HB) [1; 0]%nat example_targets
           example_params example_swap Ht eq_refl).
Defined.

(** The costs of the example batch, step by step and sequence by
    sequence, for the batch as given and with its sequences swapped. *)
Example scoring_example :
  scoring_costs example_injector example_learned example_readout
    (of_mat <$> example_targets) (of_mat example_params)
  = Ok [of_vec [5; 185]; of_vec [5; 225]]
  ∧ scoring_costs example_injector example_learned example_readout
      (of_mat <$> (gather [1; 0]%nat <$> example_targets))
      (of_mat (gather [1; 0]%nat example_params))
    = Ok [of_vec [185; 5]; of_vec [225; 5]].
Proof. split; vm_compute; reflexivity. Qed.
End examples.

Section more_examples.
Local Open Scope Z_scope.

Lemma example_injector_NoDup : NoDup (input_names example_injector).
Proof. apply NoDup_singleton. Qed.

Lemma example_no_inputs_raises :
  apply_kwargs example_injector example_learned example_kwargs_no_inputs
  = Raise (KeyError "inputs").
Proof. vm_compute. reflexivity. Qed.

(** A call without the input port: the error names that port. *)
Lemma apply_kwargs_raises_only_KeyError_witness :
  apply_kwargs example_injector example_learned example_kwargs_no_inputs
  = Raise (KeyError "inputs")
  ∧ ∃ k, KeyError "inputs" = KeyError k
      ∧ (k ∈ input_names example_injector ∨ k = "params").
Proof.
  split; [exact example_no_inputs_raises|].
  exact (apply_kwargs_raises_only_KeyError example_injector example_learned
           example_kwargs_no_inputs (KeyError "inputs")
           example_no_inputs_raises).
Defined.


Lemma example_no_params_ports name :
  name ∈ input_names example_injector →
  is_Some (ports example_kwargs_no_params !! name).
Proof. intros ->%list_elem_of_singleton. by eexists. Qed.

(** The call of the examples with its context removed. *)
Lemma apply_without_params_raises_witness :
  NoDup (input_names example_injector)
  ∧ (∀ name, name ∈ input_names example_injector →
       is_Some (ports example_kwargs_no_params !! name))
  ∧ ports example_kwargs_no_params !! "params" = None
  ∧ apply_kwargs example_injector example_learned example_kwargs_no_params
    = Raise (KeyError "params")
  ∧ AddParameters_apply example_injector example_learned
      example_kwargs_no_params = Raise (KeyError "params").
Proof.
  split; [exact example_injector_NoDup|].
  split; [exact example_no_params_ports|]. split; [reflexivity|].
  exact (apply_without_params_raises example_injector example_learned
           example_kwargs_no_params example_injector_NoDup
           example_no_params_ports eq_refl).
Defined.

Lemma example_no_inputs_missing :
  ∃ name, name ∈ input_names example_injector
          ∧ ports example_kwargs_no_inputs !! name = None.
Proof. exists "inputs". split; [set_solver|reflexivity]. Qed.

(** The call of the examples with its input removed. *)
Lemma apply_without_port_raises_witness :
  NoDup (input_names example_injector)
  ∧ (∃ name, name ∈ input_names example_injector
             ∧ ports example_kwargs_no_inputs !! name = None)
  ∧ ∃ k, k ∈ input_names example_injector
      ∧ ports example_kwargs_no_inputs !! k = None
      ∧ apply_kwargs example_injector example_learned
          example_kwargs_no_inputs = Raise (KeyError k)
      ∧ AddParameters_apply example_injector example_learned
          example_kwargs_no_inputs = Raise (KeyError k).
Proof.
  split; [exact example_injector_NoDup|].
  split; [exact example_no_inputs_missing|].
  exact (apply_without_port_raises example_injector example_learned
           example_kwargs_no_inputs example_injector_NoDup
           example_no_inputs_missing).
Defined.


(** The example injector and its allocation configuration. *)
Lemma push_allocation_config_fork_dims_witness :
  AddParameters_init example_cell 1 "params" = Ok example_injector
  ∧ ((∃ self', push_allocation_config example_injector = Ok self')
     ↔ (∀ name, name ∈ input_names example_injector →
          ∃ d, transition_get_dim example_cell name = Ok d)
       ∧ ∃ d, transition_get_dim example_cell (state_name example_injector)
              = Ok d)
  ∧ ∀ self', push_allocation_config example_injector = Ok self' →
      input_dim (fork self') = Some 1
      ∧ fork_names (fork self') = input_names example_injector
      ∧ ∀ name d, fork_dims (fork self') !! name = Some d
          ↔ name ∈ input_names example_injector
            ∧ transition_get_dim example_cell name = Ok d.
Proof.
  split; [reflexivity|].
  exact (push_allocation_config_fork_dims example_cell 1 "params"
           example_injector eq_refl).
Defined.

(** The example injector before and after the push. *)
Lemma push_allocation_config_keeps_apply_witness :
  push_allocation_config example_injector = Ok example_allocated
  ∧ (∀ kw, apply_kwargs example_allocated example_learned kw
           = apply_kwargs example_injector example_learned kw)
  ∧ (∀ kw, AddParameters_apply example_allocated example_learned kw
           = AddParameters_apply example_injector example_learned kw)
  ∧ (∀ bs kws, initial_state example_allocated example_learned bs kws
               = initial_state example_injector example_learned bs kws).
Proof.
  split; [exact example_push|].
  exact (push_allocation_config_keeps_apply example_injector
           example_allocated example_learned example_push).
Defined.

(** The allocated example injector, pushed once more. *)
Lemma push_allocation_config_idempotent_witness :
  push_allocation_config example_injector = Ok example_allocated
  ∧ push_allocation_config example_allocated = Ok example_allocated.
Proof.
  split; [exact example_push|].
  exact (push_allocation_config_idempotent example_injector example_allocated
           example_push).
Defined.

Lemma example_theta_ports name :
  name ∈ input_names example_theta_injector →
  is_Some (ports example_kwargs_theta !! name).
Proof. intros ->%list_elem_of_singleton. by eexists. Qed.

Lemma example_theta_name : "theta" ≠ "params".
Proof. discriminate. Qed.

(** An injector whose context is declared as ["theta"]. *)
Lemma params_name_is_not_consulted_witness :
  AddParameters_init example_cell 1 "theta" = Ok example_theta_injector
  ∧ "theta" ≠ "params"
  ∧ NoDup (input_names example_theta_injector)
  ∧ (∀ name, name ∈ input_names example_theta_injector →
       is_Some (ports example_kwargs_theta !! name))
  ∧ ports example_kwargs_theta !! "params" = None
  ∧ "theta" ∈ AddParameters_apply_contexts example_theta_injector
  ∧ get_dim example_theta_injector "theta"
    = transition_get_dim example_cell "theta"
  ∧ AddParameters_apply example_theta_injector example_learned
      example_kwargs_theta = Raise (KeyError "params").
Proof.
  split; [reflexivity|]. split; [exact example_theta_name|].
  split; [exact example_injector_NoDup|]. split; [exact example_theta_ports|].
  split; [reflexivity|].
  exact (params_name_is_not_consulted example_cell 1 "theta"
           example_theta_injector example_learned example_kwargs_theta
           eq_refl example_theta_name example_injector_NoDup
           example_theta_ports eq_refl).
Defined.

(** The fork of the example injector has no output for the mask. *)
Lemma fork_outputs_are_injected_ports_witness :
  AddParameters_init example_cell 1 "params" = Ok example_injector
  ∧ (is_Some (Fork_apply (fork example_injector) (fork_layer example_learned)
                (of_mat [[3]]) !! "mask")
     ↔ "mask" ∈ apply_sequences example_cell ∧ "mask" ≠ "mask").
Proof.
  split; [reflexivity|].
  exact (fork_outputs_are_injected_ports example_cell 1 "params"
           example_injector example_learned (of_mat [[3]]) "mask" eq_refl).
Defined.

Lemma example_shape_readout :
  has_shape [1; 2; 2]%nat (of_tensor3 [[[1; 2]; [3; 4]]]).
Proof. repeat (split || constructor). Qed.

Lemma example_shape_target :
  has_shape [1; 2; 2]%nat (of_tensor3 [[[0; 0]; [1; 1]]]).
Proof. repeat (split || constructor). Qed.

(** One step, two sequences, two features. *)
Lemma Emitter_cost_shape_witness :
  (0 < 1)%nat ∧ (0 < 2)%nat
  ∧ has_shape [1; 2; 2]%nat (of_tensor3 [[[1; 2]; [3; 4]]])
  ∧ has_shape [1; 2; 2]%nat (of_tensor3 [[[0; 0]; [1; 1]]])
  ∧ has_shape [1; 2]%nat
      (Emitter_cost (of_tensor3 [[[1; 2]; [3; 4]]])
                    (of_tensor3 [[[0; 0]; [1; 1]]])).
Proof.
  assert (0 < 1)%nat as H1 by lia. assert (0 < 2)%nat as H2 by lia.
  split; [exact H1|]. split; [exact H2|].
  split; [exact example_shape_readout|].
  split; [exact example_shape_target|].
  exact (Emitter_cost_shape 1 2 2 _ _ H1 H2 example_shape_readout
           example_shape_target).
Defined.

(** A readout scored against itself. *)
Lemma Emitter_cost_of_target_witness :
  (∀ x : Z, rsub x x = rzero)
  ∧ rmul (rzero : Z) rzero = rzero
  ∧ radd (rzero : Z) rzero = rzero
  ∧ ndim (of_tensor3 [[[1; 2]; [3; 4]]]) = 3%nat
  ∧ Emitter_cost (of_tensor3 [[[1; 2]; [3; 4]]]) (of_tensor3 [[[1; 2]; [3; 4]]])
    = of_mat [[0; 0]]
  ∧ total_cost (Emitter_cost (of_tensor3 [[[1; 2]; [3; 4]]])
                             (of_tensor3 [[[1; 2]; [3; 4]]])) = 0.
Proof.
  split; [exact Z.sub_diag|]. split; [reflexivity|]. split; [reflexivity|].
  split; [reflexivity|].
  exact (Emitter_cost_of_target [[[1; 2]; [3; 4]]] Z.sub_diag eq_refl eq_refl
           eq_refl).
Defined.

Lemma Z_sqdiff_sym (a b : Z) : sqdiff a b = sqdiff b a.
Proof. unfold sqdiff. simpl. nia. Qed.

(** The readout and the target of the examples, exchanged. *)
Lemma Emitter_cost_symmetric_witness :
  (∀ a b : Z, sqdiff a b = sqdiff b a)
  ∧ ndim (of_tensor3 [[[1; 2]; [3; 4]]]) = 3%nat
  ∧ ndim (of_tensor3 [[[0; 0]; [1; 1]]]) = 3%nat
  ∧ Emitter_cost (of_tensor3 [[[1; 2]; [3; 4]]]) (of_tensor3 [[[0; 0]; [1; 1]]])
    = Emitter_cost (of_tensor3 [[[0; 0]; [1; 1]]])
                   (of_tensor3 [[[1; 2]; [3; 4]]]).
Proof.
  split; [exact Z_sqdiff_sym|]. split; [reflexivity|]. split; [reflexivity|].
  exact (Emitter_cost_symmetric [[[1; 2]; [3; 4]]] [[[0; 0]; [1; 1]]]
           Z_sqdiff_sym eq_refl eq_refl).
Defined.

(** The batch of the examples: three steps, two sequences. *)
Lemma next_x_shape_witness :
  next example_sample id id example_series 1 = Ok (example_batch, 43)
  ∧ has_shape [Z.to_nat (seq_len example_series);
               Z.to_nat (batch_size example_series); 1%nat]
      (batch_x example_batch).
Proof.
  split; [exact example_next|].
  exact (next_x_shape example_sample id id example_series 1 example_batch 43
           example_next).
Defined.

Lemma example_negative :
  batch_size example_series_negative < 0
  ∨ series_num_params example_series_negative < 0
  ∨ seq_len example_series_negative < 0.
Proof. left. reflexivity. Qed.

(** A batch size of -1. *)
Lemma next_negative_size_raises_witness :
  (batch_size example_series_negative < 0
   ∨ series_num_params example_series_negative < 0
   ∨ seq_len example_series_negative < 0)
  ∧ next example_sample id id example_series_negative 1 = Raise ValueError.
Proof.
  split; [exact example_negative|].
  exact (next_negative_size_raises example_sample id id
           example_series_negative 1 example_negative).
Defined.

Lemma example_nonneg_batch : 0 ≤ batch_size example_series_empty.
Proof. discriminate. Qed.

Lemma example_nonneg_params : 0 ≤ series_num_params example_series_empty.
Proof. discriminate. Qed.

(** A data source without steps. *)
Lemma next_zero_length_witness :
  seq_len example_series_empty = 0
  ∧ 0 ≤ batch_size example_series_empty
  ∧ 0 ≤ series_num_params example_series_empty
  ∧ ∃ drawn g',
      next example_sample id id example_series_empty 1
      = Ok ({| batch_x := Arr [];
               batch_params := of_mat (map (map id) drawn) |}, g')
      ∧ length drawn = Z.to_nat (batch_size example_series_empty)
      ∧ Forall (λ row, length row
                       = Z.to_nat (series_num_params example_series_empty))
               drawn.
Proof.
  split; [reflexivity|]. split; [exact example_nonneg_batch|].
  split; [exact example_nonneg_params|].
  exact (next_zero_length example_sample id id example_series_empty 1
           eq_refl example_nonneg_batch example_nonneg_params).
Defined.

(** Two draws take the seed 1 to 43. *)
Lemma next_draws_witness :
  next example_sample id id example_series 1 = Ok (example_batch, 43)
  ∧ 43 = Nat.iter (Z.to_nat (batch_size example_series)
                   * Z.to_nat (series_num_params example_series))
                  (λ g, (example_sample g).2) 1.
Proof.
  split; [exact example_next|].
  exact (next_draws example_sample id id example_series 1 example_batch 43
           example_next).
Defined.

Lemma example_line_arity : length (argspec_args (func example_series_line)) ≠ 2%nat.
Proof. discriminate. Qed.

Lemma example_line_batch : 0 ≤ batch_size example_series_line.
Proof. discriminate. Qed.

Lemma example_line_params : 0 ≤ series_num_params example_series_line.
Proof. discriminate. Qed.

(** The function of two parameters and the time. *)
Lemma next_wrong_arity_witness :
  argspec_defaults (func example_series_line) = 0%nat
  ∧ argspec_varargs (func example_series_line) = false
  ∧ length (argspec_args (func example_series_line)) ≠ 2%nat
  ∧ 0 ≤ batch_size example_series_line
  ∧ 0 ≤ series_num_params example_series_line
  ∧ 0 < seq_len example_series_line
  ∧ next example_sample id id example_series_line 1 = Raise TypeError.
Proof.
  split; [reflexivity|]. split; [reflexivity|].
  split; [exact example_line_arity|]. split; [exact example_line_batch|].
  split; [exact example_line_params|]. split; [reflexivity|].
  exact (next_wrong_arity example_sample id id example_series_line 1
           eq_refl eq_refl example_line_arity example_line_batch
           example_line_params eq_refl).
Defined.

Lemma example_plot :
  plot_desired id example_line [2; 3] 3 = Ok [Sc 3; Sc 5; Sc 7].
Proof. reflexivity. Qed.

(** The line [2 * T + 3] over three steps. *)
Lemma plot_desired_values_witness :
  plot_desired id example_line [2; 3] 3 = Ok [Sc 3; Sc 5; Sc 7]
  ∧ length [Sc 3; Sc 5; Sc 7] = Z.to_nat 3
  ∧ ∀ T v, [Sc 3; Sc 5; Sc 7] !! T = Some v →
      plot_call id example_line [2; 3] T = Ok v.
Proof.
  split; [exact example_plot|].
  exact (plot_desired_values id example_line [2; 3] 3 [Sc 3; Sc 5; Sc 7]
           example_plot).
Defined.

Lemma example_plot_arity :
  length (argspec_args example_line) ≠ S (length [2]).
Proof. discriminate. Qed.

(** The function of two parameters, given one parameter only. *)
Lemma plot_desired_wrong_arity_witness :
  argspec_defaults example_line = 0%nat
  ∧ argspec_varargs example_line = false
  ∧ length (argspec_args example_line) ≠ S (length [2])
  ∧ 0 < 3
  ∧ plot_desired id example_line [2] 3 = Raise TypeError.
Proof.
  split; [reflexivity|]. split; [reflexivity|].
  split; [exact example_plot_arity|]. split; [reflexivity|].
  exact (plot_desired_wrong_arity id example_line [2] 3 eq_refl eq_refl
           example_plot_arity eq_refl).
Defined.

(** A series that is off by 2, 3 and 3, and one that is exact. *)
Lemma plot_mse_sum_of_squares_witness :
  (∀ x : Z, rsub x x = rzero)
  ∧ rmul (rzero : Z) rzero = rzero
  ∧ radd (rzero : Z) rzero = rzero
  ∧ plot_mse (of_vec [1; 2; 4]) (Sc <$> [3; 5; 7]) = 22
  ∧ plot_mse (of_vec [3; 5; 7]) (Sc <$> [3; 5; 7]) = 0.
Proof.
  split; [exact Z.sub_diag|]. split; [reflexivity|]. split; [reflexivity|].
  exact (plot_mse_sum_of_squares [1; 2; 4] [3; 5; 7] Z.sub_diag eq_refl
           eq_refl).
Defined.
End more_examples.

Section float_examples.

(** The claim of C8 as stated fails for the total: in the arithmetic of
    the machine the three sequences cost 1e16, 1 and 1; summed in this
    order the total is 1e16, and with the first sequence moved to the end
    the costs are permuted alike but the total is 1e16 + 2. *)
Lemma total_cost_depends_on_batch_order :
  [1; 2; 0] ≡ₚ seq 0 3
  ∧ scoring_costs float_injector float_learned float_readout
      (of_mat <$> float_targets) (of_mat float_params)
    = Ok [of_vec [1e16; 1; 1]%float]
  ∧ scoring_costs float_injector float_learned float_readout
      (of_mat <$> (gather [1; 2; 0] <$> float_targets))
      (of_mat (gather [1; 2; 0] float_params))
    = Ok (map (tgather [1; 2; 0]) [of_vec [1e16; 1; 1]%float])
  ∧ total_cost (Arr (map (tgather [1; 2; 0]) [of_vec [1e16; 1; 1]%float]))
    ≠ total_cost (Arr [of_vec [1e16; 1; 1]%float]).
Proof.
  split.
  { change (seq 0 3) with [0; 1; 2]. symmetry.
    etrans; [apply perm_swap|]. apply perm_skip, perm_swap. }
  split; [vm_compute; reflexivity|]. split; [vm_compute; reflexivity|].
  intros Heq.
  assert (PrimFloat.eqb
            (total_cost (Arr (map (tgather [1; 2; 0])
                                  [of_vec [1e16; 1; 1]%float])))
            (total_cost (Arr [of_vec [1e16; 1; 1]%float])) = false) as Hne
    by (vm_compute; reflexivity).
  rewrite Heq in Hne. vm_compute in Hne. discriminate.
Qed.
End float_examples.
